(** * Google Patents scraper: text normalisation, claim parsing and record
    assembly of [Scraping_Google_Patents_1.4.py].

    Python [str] values are modelled as lists of characters.  A character is
    an 8-bit code point (Latin-1 range, U+0000 to U+00FF); on that range the
    character classes below are the ones CPython uses for [str] patterns:
    [\s] and [str.strip] share [Py_UNICODE_ISSPACE], [\d] is
    [Py_UNICODE_ISDECIMAL] (only [0]-[9] below U+0100), and a literal under
    [re.IGNORECASE] matches the characters whose lower case is the literal.
    [int] gives the decimal value of a string of digits; the conversion
    raises [ValueError] above CPython's default limit of 4300 digits, which
    [int_raises] tells and the loop of [scrape_google_patents] follows. *)

From stdpp Require Import gmap strings list.
From Stdlib Require Import Ascii NArith ZArith Lia.

Local Open Scope bool_scope.
Local Open Scope N_scope.

(** ** Strings and character classes *)

Abbreviation str := (list ascii) (only parsing).

(** A string literal as a Python [str]. *)
Definition py (s : string) : str := String.list_ascii_of_string s.

Definition ord (c : ascii) : N := N_of_ascii c.

(** [Py_UNICODE_ISSPACE]: U+0009-U+000D, U+001C-U+001F, U+0020, U+0085 and
    U+00A0. *)
Definition isspace (c : ascii) : bool :=
  let n := ord c in
  ((9 <=? n) && (n <=? 13)) || ((28 <=? n) && (n <=? 32))
  || (n =? 133) || (n =? 160).

(** [Py_UNICODE_ISDECIMAL]. *)
Definition isdecimal (c : ascii) : bool :=
  let n := ord c in (48 <=? n) && (n <=? 57).

(** The decimal value of a digit character. *)
Definition digit_value (c : ascii) : N := ord c - 48.

(** [_PyUnicode_ToLowercase] on the Latin-1 range: [A]-[Z] and U+00C0-U+00DE
    (without the multiplication sign U+00D7) move up by 32. *)
Definition unicode_tolower (c : ascii) : ascii :=
  let n := ord c in
  if ((65 <=? n) && (n <=? 90))
     || ((192 <=? n) && (n <=? 222) && negb (n =? 215))
  then ascii_of_N (n + 32) else c.

Definition space : ascii := " "%char.
Definition newline : ascii := ascii_of_N 10.
Definition dot : ascii := "."%char.
Definition underscore : ascii := "_"%char.

(** ** Regular-expression and string primitives used by the script *)

Section Scanning.
Context {A : Type} (p : A → bool).

(** The longest prefix of elements satisfying [p], as a greedy star
    consumes it. *)
Fixpoint span_while (l : list A) : list A :=
  match l with
  | x :: r => if p x then x :: span_while r else []
  | [] => []
  end.

(** What is left once that prefix is consumed. *)
Fixpoint skip_while (l : list A) : list A :=
  match l with
  | x :: r => if p x then skip_while r else l
  | [] => []
  end.
End Scanning.

(** [s.lstrip()], [s.rstrip()] and [s.strip()]. *)
Definition lstrip (s : str) : str := skip_while isspace s.
Definition rstrip (s : str) : str := rev (skip_while isspace (rev s)).
Definition strip (s : str) : str := rstrip (lstrip s).

(** [re.sub] of [cls+] by [repl], for a character class [cls] and a
    one-character replacement: scanning left to right, each maximal run of
    characters of the class is one match and is replaced by [repl].
    [in_run] tells whether the previous character belonged to the current
    match. *)
Fixpoint sub_runs_from (cls : ascii → bool) (repl : ascii)
    (in_run : bool) (s : str) : str :=
  match s with
  | [] => []
  | c :: r =>
      if cls c
      then (if in_run then sub_runs_from cls repl true r
            else repl :: sub_runs_from cls repl true r)
      else c :: sub_runs_from cls repl false r
  end.

Definition sub_runs (cls : ascii → bool) (repl : ascii) (s : str) : str :=
  sub_runs_from cls repl false s.

(** [re.sub] of [\s+] by one space. *)
Definition sub_ws (s : str) : str := sub_runs isspace space s.

(** Python's [s or ''] for a string that may be [None]. *)
Definition or_empty (s : option str) : str :=
  match s with
  | Some t => t
  | None => []
  end.

(** Truthiness of a string that may be [None]. *)
Definition truthy (s : option str) : bool :=
  match s with
  | Some (_ :: _) => true
  | _ => false
  end.

(** ** [clean_text] *)

Definition clean_text (s : option str) : str := strip (sub_ws (or_empty s)).

(** ** [normalize_abstract] *)

(** A pattern literal under [re.IGNORECASE] matches the characters that
    have the same lower case. *)
Definition icase_eq (lit c : ascii) : bool :=
  Ascii.eqb (unicode_tolower c) (unicode_tolower lit).

(** Matching a literal word, ignoring case, at the start of [s]; the
    result is what follows the word. *)
Fixpoint match_icase (word s : str) : option str :=
  match word, s with
  | [], _ => Some s
  | l :: word', c :: s' => if icase_eq l c then match_icase word' s' else None
  | _ :: _, [] => None
  end.

(** The class [[:\s-]]. *)
Definition label_sep (c : ascii) : bool :=
  Ascii.eqb c ":"%char || isspace c || Ascii.eqb c "-"%char.

(** [re.sub] of the pattern [^\s*Abstract[:\s-]*] by the empty string,
    with [re.IGNORECASE]: the
    pattern is anchored, so it matches at most once, at position 0; both
    stars are greedy and what follows each of them cannot start with a
    character of its class, so each consumes its whole run. *)
Definition sub_abstract_label (text : str) : str :=
  match match_icase (py "Abstract") (skip_while isspace text) with
  | Some rest => skip_while label_sep rest
  | None => text
  end.

Definition normalize_abstract (text : option str) : str :=
  if truthy text
  then sub_abstract_label (clean_text text)
  else [].

(** ** Claim patterns *)

(** [re.match] of [^\d+\.\s]. *)
Definition match_num_dot_ws (txt : str) : bool :=
  match span_while isdecimal txt, skip_while isdecimal txt with
  | _ :: _, c :: w :: _ => Ascii.eqb c dot && isspace w
  | _, _ => false
  end.

(** [re.match] of [^\d+\s]. *)
Definition match_num_ws (txt : str) : bool :=
  match span_while isdecimal txt, skip_while isdecimal txt with
  | _ :: _, w :: _ => isspace w
  | _, _ => false
  end.

(** [.] matches every character but the line feed. *)
Definition not_newline (c : ascii) : bool := negb (Ascii.eqb c newline).

(** [re.match] of the claim pattern (one or more digits in group 1, a
    dot, any whitespace, then group 2 running to the end of the line): the
    two groups of the match. *)
Definition match_claim (c : str) : option (str * str) :=
  match span_while isdecimal c, skip_while isdecimal c with
  | (_ :: _) as ds, d :: rest =>
      if Ascii.eqb d dot
      then Some (ds, span_while not_newline (skip_while isspace rest))
      else None
  | _, _ => None
  end.

(** [int(m.group(1))], when it returns: the decimal value. *)
Definition int (ds : str) : N :=
  foldl (λ acc c, 10 * acc + digit_value c) 0 ds.

(** [sys.get_int_max_str_digits()], by default. *)
Definition int_max_str_digits : nat := 4300.

(** Whether [int] raises [ValueError] on a string of digits: it does when
    the string has more digits than the limit (leading zeros count). *)
Definition int_raises (ds : str) : bool :=
  (int_max_str_digits <? length ds)%nat.

(** ** Parsing and deduplicating claims *)

Record Claim := { claim_number : N; text : str }.

(** What one raw claim yields when the claim pattern matches it: the
    number and the stripped text. *)
Definition parse_item (c : str) : option Claim :=
  match match_claim c with
  | None => None
  | Some (g1, g2) => Some {| claim_number := int g1; text := strip g2 |}
  end.

(** One iteration of the loop over [claims] in which [int] returns; the
    state is [(parsed_claims, seen_nums)]. *)
Definition parse_step (st : list Claim * gset N) (c : str)
    : list Claim * gset N :=
  match parse_item c with
  | None => st
  | Some cl =>
      if decide (claim_number cl ∈ st.2) then st
      else (st.1 ++ [cl], st.2 ∪ {[claim_number cl]})
  end.

(** The list the loop leaves in [parsed_claims] when no conversion
    raises. *)
Definition parse_claims (claims : list str) : list Claim :=
  (foldl parse_step ([], ∅) claims).1.

(** ** The fetched page

    [BeautifulSoup] is used through a fixed set of queries; a page is
    modelled by what each of them returns.  A [meta] tag is [None] when no
    such tag exists and otherwise carries its [content] attribute, which
    may be missing; an element or a list of selected elements is given by
    the [get_text(' ', strip=True)] of each element ([get_text()] for the
    title element). *)
Record Page := {
  meta_DC_title : option (option str);
  soup_title : option str;
  meta_citation_patent_number : option (option str);
  itemprop_abstract : option str;
  meta_description : option (option str);
  select_itemprop_claims_claim : list str;
  select_claims_claim : list str;
  select_claim : list str;
  select_itemprop_claims : list str;
  select_section_claims : list str
}.

(** [t and t.get('content')]: a tag object is always true, so the test is
    whether the attribute exists and is not empty. *)
Definition tag_content (t : option (option str)) : option str :=
  match t with
  | Some (Some (c :: s)) => Some (c :: s)
  | _ => None
  end.

(** Python's [a or b] on lists. *)
Definition or_list {A} (a b : list A) : list A :=
  match a with
  | [] => b
  | _ :: _ => a
  end.

Definition extract_title (p : Page) : str :=
  match tag_content (meta_DC_title p) with
  | Some c => clean_text (Some c)
  | None =>
      match soup_title p with
      | Some t => clean_text (Some t)
      | None => []
      end
  end.

Definition extract_pub_num (p : Page) : str :=
  match tag_content (meta_citation_patent_number p) with
  | Some c => clean_text (Some c)
  | None => []
  end.

Definition extract_abstract (p : Page) : str :=
  match itemprop_abstract p with
  | Some t => normalize_abstract (Some t)
  | None =>
      match tag_content (meta_description p) with
      | Some c => normalize_abstract (Some c)
      | None => []
      end
  end.

(** The first tier: the nodes of the first selector with a match, their
    cleaned text kept when it starts like a numbered claim. *)
Definition looks_numbered (txt : str) : bool :=
  match_num_dot_ws txt || match_num_ws txt.

Definition claim_nodes (p : Page) : list str :=
  or_list (select_itemprop_claims_claim p)
    (or_list (select_claims_claim p) (select_claim p)).

Definition primary_claims (p : Page) : list str :=
  filter (λ txt, looks_numbered txt = true)
    ((λ node, clean_text (Some node)) <$> claim_nodes p).

(** The look-ahead of the split pattern at one position: a whitespace
    character, or the start of the string, and then digits, a dot and a
    whitespace character.  [s] is the text from that position on. *)
Definition boundary (at_start : bool) (s : str) : bool :=
  match s with
  | c :: r =>
      (isspace c && match_num_dot_ws r) || (at_start && match_num_dot_ws s)
  | [] => false
  end.

(** [re.split] on that empty-width pattern: the string is cut at every
    position where the look-ahead holds (position 0 included, which yields
    an empty first piece).  [cur] is the piece being read, reversed. *)
Fixpoint re_split_from (at_start : bool) (cur : str) (s : str) : list str :=
  match s with
  | [] => [rev cur]
  | c :: r =>
      if boundary at_start s
      then rev cur :: re_split_from false [c] r
      else re_split_from false (c :: cur) r
  end.

Definition re_split (s : str) : list str := re_split_from true [] s.

(** The pieces of one node of the second tier. *)
Definition split_parts (node : str) : list str :=
  let txt := clean_text (Some node) in
  let parts := re_split (space :: txt) in
  (λ p, clean_text (Some p)) <$>
    filter (λ p, match_num_dot_ws (clean_text (Some p)) = true) parts.

(** The loop over [alt]: the first node with a piece gives the claims. *)
Fixpoint fallback_loop (alt : list str) : list str :=
  match alt with
  | [] => []
  | node :: rest =>
      match split_parts node with
      | [] => fallback_loop rest
      | parts => parts
      end
  end.

Definition fallback_claims (p : Page) : list str :=
  fallback_loop (or_list (select_itemprop_claims p) (select_section_claims p)).

(** The list [claims] before it is parsed. *)
Definition raw_claims (p : Page) : list str :=
  match primary_claims p with
  | [] => fallback_claims p
  | claims => claims
  end.

(** ** The record *)

Record PatentRecord := {
  source : str;
  source_url : str;
  publication_number : str;
  title : str;
  abstract : str;
  claims : list Claim;
  raw_html_bytes : N
}.

(** The response of [requests.get]: its status, its body [r.content] and
    the document [BeautifulSoup] builds from [r.text]. *)
Record Response := {
  status_code : Z;
  content : list Byte.byte;
  soup : Page
}.

(** What [scrape_google_patents] returns for a response that passed
    [raise_for_status], when the loop over the claims does not raise. *)
Definition build_record (url : str) (r : Response) : PatentRecord :=
  {| source := py "google_patents";
     source_url := url;
     publication_number := extract_pub_num (soup r);
     title := extract_title (soup r);
     abstract := extract_abstract (soup r);
     claims := parse_claims (raw_claims (soup r));
     raw_html_bytes := N.of_nat (length (content r)) |}.

(** ** Fetching, and the script's entry point *)

(** The exceptions of [requests] that end a fetch. *)
Inductive FetchError :=
  | HTTPError (status : Z)
  | ConnectionError
  | Timeout.

(** One call of [requests.get]. *)
Record Request := {
  req_url : str;
  req_headers : list (str * str);
  req_timeout : N
}.

(** The remote side: a request raises or is answered. *)
Definition Network := Request → FetchError + Response.

(** What the script can raise: an exception of [requests], or the
    [ValueError] of [int]. *)
Inductive Exception :=
  | RequestException (e : FetchError)
  | ValueError.

(** A line on the console. *)
Inductive Line :=
  | Prompt (msg : str)
  | Saved (path : str)
  | Title (t : str)
  | AbstractChars (n : nat)
  | ClaimsExtracted (n : nat).

(** What the script can change: the requests it sent, the directories and
    files it made (a file holds the record that [json.dumps] prints), and
    the console. *)
Record World := {
  sent : list Request;
  dirs : gset str;
  files : gmap str PatentRecord;
  stdout : list Line
}.

(** Computations that change the world and may raise. *)
Definition M (A : Type) : Type := World → (Exception + A) * World.

Global Instance M_ret : MRet M := λ A x w, (inr x, w).
Global Instance M_bind : MBind M := λ A B f m w,
  match m w with
  | (inl e, w') => (inl e, w')
  | (inr x, w') => f x w'
  end.

Definition raise {A} (e : Exception) : M A := λ w, (inl e, w).

(** A computation that leaves the world alone. *)
Definition lift {A} (x : Exception + A) : M A := λ w, (x, w).

Definition requests_get (net : Network) (url : str)
    (headers : list (str * str)) (timeout : N) : M Response := λ w,
  let rq := {| req_url := url; req_headers := headers;
               req_timeout := timeout |} in
  (match net rq with
   | inl e => inl (RequestException e)
   | inr r => inr r
   end,
   {| sent := sent w ++ [rq]; dirs := dirs w; files := files w;
      stdout := stdout w |}).

(** [r.raise_for_status()]: statuses 400 to 599 raise [HTTPError]. *)
Definition raise_for_status (r : Response) : M unit :=
  if ((400 <=? status_code r) && (status_code r <? 600))%Z
  then raise (RequestException (HTTPError (status_code r)))
  else mret ().

(** The body of the loop over [claims], lines 250 to 263: an item the
    claim pattern does not match is skipped; [int] may raise; a number not
    seen before adds a record. *)
Definition claims_loop_body (st : list Claim * gset N) (c : str)
    : Exception + (list Claim * gset N) :=
  match match_claim c with
  | None => inr st
  | Some (g1, g2) =>
      if int_raises g1 then inl ValueError
      else
        let num := int g1 in
        let text := strip g2 in
        if decide (num ∈ st.2) then inr st
        else inr (st.1 ++ [{| claim_number := num; text := text |}],
                  st.2 ∪ {[num]})
  end.

Fixpoint claims_loop_from (st : list Claim * gset N) (claims : list str)
    : Exception + (list Claim * gset N) :=
  match claims with
  | [] => inr st
  | c :: rest =>
      match claims_loop_body st c with
      | inl e => inl e
      | inr st' => claims_loop_from st' rest
      end
  end.

(** The loop of lines 246 to 265: [parsed_claims] at its end, or the
    exception that ended it. *)
Definition claims_loop (claims : list str) : Exception + list Claim :=
  match claims_loop_from ([], ∅) claims with
  | inl e => inl e
  | inr st => inr st.1
  end.

(** The dictionary of lines 268 to 276. *)
Definition assemble (url : str) (r : Response) (claims : list Claim)
    : PatentRecord :=
  {| source := py "google_patents";
     source_url := url;
     publication_number := extract_pub_num (soup r);
     title := extract_title (soup r);
     abstract := extract_abstract (soup r);
     claims := claims;
     raw_html_bytes := N.of_nat (length (content r)) |}.

Definition headers : list (str * str) :=
  [(py "User-Agent",
    py "Mozilla/5.0 (Windows NT 10.0; Win64; x64) AppleWebKit/537.36 (KHTML, like Gecko) Chrome/120.0 Safari/537.36");
   (py "Accept-Language", py "en-US,en;q=0.9")].

Definition scrape_google_patents (net : Network) (url : str)
    : M PatentRecord :=
  r ← requests_get net url headers 30;
  raise_for_status r;;
  claims ← lift (claims_loop (raw_claims (soup r)));
  mret (assemble url r claims).

Definition mkdir (d : str) : M unit := λ w,
  (inr (),
   {| sent := sent w; dirs := dirs w ∪ {[d]}; files := files w;
      stdout := stdout w |}).

Definition write_text (path : str) (data : PatentRecord) : M unit := λ w,
  (inr (),
   {| sent := sent w; dirs := dirs w; files := <[path := data]> (files w);
      stdout := stdout w |}).

Definition print (l : Line) : M unit := λ w,
  (inr (),
   {| sent := sent w; dirs := dirs w; files := files w;
      stdout := stdout w ++ [l] |}).

(** The class [[A-Za-z0-9_-]]. *)
Definition slug_char (c : ascii) : bool :=
  let n := ord c in
  ((65 <=? n) && (n <=? 90)) || ((97 <=? n) && (n <=? 122))
  || ((48 <=? n) && (n <=? 57))
  || Ascii.eqb c underscore || Ascii.eqb c "-"%char.

(** [re.sub] of [[^A-Za-z0-9_-]+] by one underscore. *)
Definition sanitize (slug : str) : str :=
  sub_runs (λ c, negb (slug_char c)) underscore slug.

(** The file name chosen for a publication number:
    [data['publication_number'] or 'patent'], sanitized. *)
Definition slug_of (publication_number : str) : str :=
  sanitize
    match publication_number with
    | [] => py "patent"
    | _ :: _ => publication_number
    end.

Definition out_dir : str := py "patent_dump".

Definition out_path_of (slug : str) : str :=
  out_dir ++ py "/" ++ slug ++ py ".json".

(** The body under [if __name__ == '__main__'], given the line typed at
    the prompt. *)
Definition main (net : Network) (typed : str) : M unit :=
  print (Prompt (py "Google Patents URL: "));;
  let url := strip typed in
  mkdir out_dir;;
  data ← scrape_google_patents net url;
  let out_path := out_path_of (slug_of (publication_number data)) in
  write_text out_path data;;
  print (Saved out_path);;
  print (Title (title data));;
  print (AbstractChars (length (abstract data)));;
  print (ClaimsExtracted (length (claims data))).

(** ** Properties of strings used in the statements *)

Definition no_lead_ws (s : str) : bool :=
  match s with
  | c :: _ => negb (isspace c)
  | [] => true
  end.

Fixpoint no_trail_ws (s : str) : bool :=
  match s with
  | [] => true
  | c :: r =>
      match r with
      | [] => negb (isspace c)
      | _ :: _ => no_trail_ws r
      end
  end.

Fixpoint no_ws_run (s : str) : bool :=
  match s with
  | [] => true
  | c :: r =>
      match r with
      | [] => true
      | d :: _ => negb (isspace c && isspace d) && no_ws_run r
      end
  end.

(** The invariant of the string fields: no leading or trailing whitespace
    and no two whitespace characters in a row. *)
Definition normalized (s : str) : bool :=
  no_lead_ws s && no_trail_ws s && no_ws_run s.

(** Every whitespace character is a space and is followed by a character
    that is not whitespace. *)
Fixpoint tidy (s : str) : bool :=
  match s with
  | [] => true
  | c :: r =>
      (negb (isspace c)
       || (Ascii.eqb c space
           && match r with d :: _ => negb (isspace d) | [] => false end))
      && tidy r
  end.

(** The strings [clean_text] returns. *)
Definition is_clean (s : str) : bool := no_lead_ws s && tidy s.

(** The maximal runs of characters that are not whitespace, in order. *)
Fixpoint words (s : str) : list str :=
  match s with
  | [] => []
  | c :: r =>
      if isspace c then words r
      else if no_lead_ws r
           then match words r with
                | w :: ws => (c :: w) :: ws
                | [] => [[c]]
                end
           else [c] :: words r
  end.

(** The words with one space between neighbours. *)
Fixpoint join_words (ws : list str) : str :=
  match ws with
  | [] => []
  | w :: rest =>
      match rest with
      | [] => w
      | _ :: _ => w ++ space :: join_words rest
      end
  end.

(** ** Definitions used in the statements *)

(** [clean_text] read in one pass: [squeeze true] before the first word
    and [squeeze false] inside the text. *)
Definition squeeze (in_run : bool) (s : str) : str :=
  rstrip (sub_runs_from isspace space in_run s).

(** The raw claims the two tiers deliver. *)
Definition raw_item (c : str) : bool := is_clean c && looks_numbered c.

(** The items whose number is neither in [seen] nor carried by an earlier
    item. *)
Fixpoint keep_unseen (seen : gset N) (items : list Claim) : list Claim :=
  match items with
  | [] => []
  | x :: r =>
      if decide (claim_number x ∈ seen) then keep_unseen seen r
      else x :: keep_unseen (seen ∪ {[claim_number x]}) r
  end.

(** Whether the scan of [sub_runs_from] is inside a match after reading
    [u], having started in state [b]. *)
Definition run_state (cls : ascii → bool) (b : bool) (u : str) : bool :=
  match last u with
  | Some c => cls c
  | None => b
  end.

(** Whether [int] raises on the number of the raw claim [c]. *)
Definition overflows (c : str) : bool :=
  match match_claim c with
  | Some (g1, _) => int_raises g1
  | None => false
  end.

(** The first item of each claim number, in order: an item is kept and
    every later item with its number is removed. *)
Fixpoint first_seen (items : list Claim) : list Claim :=
  match items with
  | [] => []
  | x :: r =>
      x :: filter (λ y, claim_number y ≠ claim_number x) (first_seen r)
  end.

(** A success status as the error handling of the description has it:
    200 to 299. *)
Definition success_status (code : Z) : bool :=
  ((200 <=? code) && (code <? 300))%Z.

(** A raw claim whose number has one digit more than [int] converts. *)
Definition long_number_claim : str :=
  replicate (S int_max_str_digits) "1"%char ++ py ". Foo".

(** The example of the testable properties. *)
Definition claim_1_foo : Claim := {| claim_number := 1; text := py "Foo" |}.

Definition claim_2_bar : Claim := {| claim_number := 2; text := py "Bar" |}.

Definition foo_bar_duplicate : list str :=
  [py "1. Foo"; py "2. Bar"; py "1. Duplicate"].

(** The Claim invariant as the data model words it. *)
Definition Claim_invariant (out : list Claim) : Prop :=
  NoDup (claim_number <$> out) ∧
  ∀ x, x ∈ out →
    1 ≤ claim_number x ∧ text x ≠ [] ∧ normalized (text x) = true.

(** A page on which no query finds anything. *)
Definition empty_page : Page :=
  {| meta_DC_title := None; soup_title := None;
     meta_citation_patent_number := None; itemprop_abstract := None;
     meta_description := None; select_itemprop_claims_claim := [];
     select_claims_claim := []; select_claim := [];
     select_itemprop_claims := []; select_section_claims := [] |}.

(** A page whose only claim element reads [0. Foo]. *)
Definition page_claim_zero : Page :=
  {| meta_DC_title := None; soup_title := None;
     meta_citation_patent_number := None; itemprop_abstract := None;
     meta_description := None; select_itemprop_claims_claim := [];
     select_claims_claim := []; select_claim := [py "0. Foo"];
     select_itemprop_claims := []; select_section_claims := [] |}.

(** An abstract element whose text starts with the word Abstract after
    the label. *)
Definition abstract_abstract : str :=
  py "Abstract Abstract syntax trees are compared.".

(** The request [scrape_google_patents] sends for [url]. *)
Definition request_for (url : str) : Request :=
  {| req_url := url; req_headers := headers; req_timeout := 30 |}.

(** The world after the fetch of [scrape_google_patents]. *)
Definition after_fetch (url : str) (w : World) : World :=
  {| sent := sent w ++ [request_for url]; dirs := dirs w; files := files w;
     stdout := stdout w |}.

(** The error a fetch ends with, if any: the exception of [requests.get],
    or [HTTPError] for a status from 400 to 599. *)
Definition fetch_failure (net : Network) (url : str) : option FetchError :=
  match net (request_for url) with
  | inl e => Some e
  | inr r =>
      if ((400 <=? status_code r) && (status_code r <? 600))%Z
      then Some (HTTPError (status_code r))
      else None
  end.

(** A URL with two spaces in a row. *)
Definition url_two_spaces : str :=
  py "https://patents.google.com/?q=widget  gear".

(** A successful, empty-bodied response that parses to [p]. *)
Definition response_of (p : Page) : Response :=
  {| status_code := 200; content := []; soup := p |}.

Definition empty_world : World :=
  {| sent := []; dirs := ∅; files := ∅; stdout := [] |}.

(** A server that answers 304 with an empty page. *)
Definition net_304 : Network :=
  λ _, inr {| status_code := 304; content := []; soup := empty_page |}.

(** A server whose page has one claim element, with a number too long for
    [int]. *)
Definition net_long_number : Network :=
  λ _, inr {| status_code := 200; content := [];
              soup := {| meta_DC_title := None; soup_title := None;
                         meta_citation_patent_number := None;
                         itemprop_abstract := None;
                         meta_description := None;
                         select_itemprop_claims_claim := [];
                         select_claims_claim := [];
                         select_claim := [long_number_claim];
                         select_itemprop_claims := [];
                         select_section_claims := [] |} |}.

(** A server that answers 404, and a network that times out. *)
Definition net_404 : Network :=
  λ _, inr {| status_code := 404; content := []; soup := empty_page |}.

Definition net_timeout : Network := λ _, inl Timeout.

(** The page of the end-to-end example. *)
Definition widget_page : Page :=
  {| meta_DC_title := Some (Some (py "A Method For Widgets"));
     soup_title := Some (py "US1234567A - A Method For Widgets");
     meta_citation_patent_number := Some (Some (py "US1234567A"));
     itemprop_abstract := Some (py "Abstract: A widget is disclosed.");
     meta_description := None;
     select_itemprop_claims_claim := [];
     select_claims_claim := [];
     select_claim :=
       [py "1. A widget.";
        py "2. The widget of claim 1, further comprising a gear."];
     select_itemprop_claims := []; select_section_claims := [] |}.

(** The sanitizing as the interface section words it: every character
    outside the class becomes an underscore of its own. *)
Definition replace_each (slug : str) : str :=
  (λ c, if slug_char c then c else underscore) <$> slug.

(** No two characters of the class [cls] in a row. *)
Fixpoint no_run (cls : ascii → bool) (s : str) : bool :=
  match s with
  | [] => true
  | c :: r =>
      match r with
      | [] => true
      | d :: _ => negb (cls c && cls d) && no_run cls r
      end
  end.

(** A publication number with two adjacent characters outside the
    class. *)
Definition pub_with_parenthesis : str := py "EP1234567 (A1)".

(** A page that has an empty abstract element and a description. *)
Definition page_empty_abstract : Page :=
  {| meta_DC_title := None; soup_title := None;
     meta_citation_patent_number := None; itemprop_abstract := Some [];
     meta_description := Some (Some (py "A widget is disclosed."));
     select_itemprop_claims_claim := []; select_claims_claim := [];
     select_claim := []; select_itemprop_claims := [];
     select_section_claims := [] |}.

(** The page with another description [meta] tag. *)
Definition with_description (md : option (option str)) (p : Page) : Page :=
  {| meta_DC_title := meta_DC_title p; soup_title := soup_title p;
     meta_citation_patent_number := meta_citation_patent_number p;
     itemprop_abstract := itemprop_abstract p;
     meta_description := md;
     select_itemprop_claims_claim := select_itemprop_claims_claim p;
     select_claims_claim := select_claims_claim p;
     select_claim := select_claim p;
     select_itemprop_claims := select_itemprop_claims p;
     select_section_claims := select_section_claims p |}.

(** ** Definitions used in the further properties *)

(** The world after a run that ended in the fetch or in the loop over
    the claims. *)
Definition after_abort (typed : str) (w : World) : World :=
  {| sent := sent w ++ [request_for (strip typed)];
     dirs := dirs w ∪ {[out_dir]};
     files := files w;
     stdout := stdout w ++ [Prompt (py "Google Patents URL: ")] |}.

(** The world after a run that fetched [r] for the typed line. *)
Definition after_main (typed : str) (r : Response) (w : World) : World :=
  let url := strip typed in
  let data := build_record url r in
  let out_path := out_path_of (slug_of (publication_number data)) in
  {| sent := sent w ++ [request_for url];
     dirs := dirs w ∪ {[out_dir]};
     files := <[out_path := data]> (files w);
     stdout := stdout w ++
       [Prompt (py "Google Patents URL: "); Saved out_path;
        Title (title data); AbstractChars (length (abstract data));
        ClaimsExtracted (length (claims data))] |}.

(** No position of [u], read with [rest] after it, is a cut of the split
    pattern. *)
Fixpoint quiet (u rest : str) : bool :=
  match u with
  | [] => true
  | c :: u' => negb (boundary false (c :: u' ++ rest)) && quiet u' rest
  end.

(** No whitespace inside the claim [c] is followed by digits, a dot and
    whitespace or the end of the claim. *)
Definition no_inner_cut (c : str) : bool := quiet c [space].

(** A claim as the second tier can recover it from a block of text. *)
Definition splittable (c : str) : bool :=
  is_clean c && match_num_dot_ws c && no_inner_cut c.

(** The claim pattern read character by character: what must follow the
    first digit. *)
Fixpoint after_digits (s : str) : bool :=
  match s with
  | [] => false
  | c :: r =>
      if isdecimal c then after_digits r
      else Ascii.eqb c dot
           && match r with w :: _ => isspace w | [] => false end
  end.

(** The claims of a block, each with the space before it. *)
Definition spaced_block (cs : list str) : str :=
  concat ((λ c, space :: c) <$> cs).


(** The line typed at the prompt in the examples. *)
Definition typed_widget : str :=
  py " https://patents.google.com/patent/US1234567A/en ".

(** A page whose first selector finds only a heading, while the claims
    sit in plain claim elements and in the claims container. *)
Definition page_heading_first : Page :=
  {| meta_DC_title := None; soup_title := None;
     meta_citation_patent_number := None; itemprop_abstract := None;
     meta_description := None;
     select_itemprop_claims_claim := [py "Claims"];
     select_claims_claim := [];
     select_claim := [py "1. A widget."; py "2. A gear."];
     select_itemprop_claims := [py "1. A widget. 2. A gear."];
     select_section_claims := [] |}.

(** A page whose title [meta] tag holds only blanks. *)
Definition page_blank_title : Page :=
  {| meta_DC_title := Some (Some (py "  "));
     soup_title := Some (py "A Method For Widgets");
     meta_citation_patent_number := None; itemprop_abstract := None;
     meta_description := None; select_itemprop_claims_claim := [];
     select_claims_claim := []; select_claim := [];
     select_itemprop_claims := []; select_section_claims := [] |}.

Definition two_claims : list str :=
  [py "1. A widget."; py "2. The widget of claim 1, with a gear."].

(** * Proofs *)

(** ** Scanning lemmas *)

Section ScanningFacts.
Context {A : Type} (p : A → bool).

Lemma span_skip (l : list A) : span_while p l ++ skip_while p l = l.
Proof. induction l as [|x r IH]; simpl; [done|]. destruct (p x); simpl; by rewrite ?IH. Qed.

Lemma span_while_all (l : list A) : forallb p (span_while p l) = true.
Proof. induction l as [|x r IH]; simpl; [done|]. destruct (p x) eqn:E; simpl; by rewrite ?E. Qed.

Lemma skip_while_head (l : list A) x r :
  skip_while p l = x :: r → p x = false.
Proof.
  induction l as [|y l IH]; simpl; [done|].
  destruct (p y) eqn:E; [done|]. intros [= -> _]. done.
Qed.

Lemma skip_while_all (l : list A) :
  forallb p l = true → skip_while p l = [].
Proof. induction l as [|x r IH]; simpl; [done|]. destruct (p x); naive_solver. Qed.

Lemma skip_while_nil_all (l : list A) :
  skip_while p l = [] → forallb p l = true.
Proof. induction l as [|x r IH]; simpl; [done|]. destruct (p x); naive_solver. Qed.

Lemma span_while_id (l : list A) :
  forallb p l = true → span_while p l = l.
Proof. induction l as [|x r IH]; simpl; [done|]. destruct (p x); simpl; [|done]. intros; f_equal; auto. Qed.

Lemma skip_while_app (a b : list A) :
  skip_while p (a ++ b) =
    if forallb p a then skip_while p b else skip_while p a ++ b.
Proof. induction a as [|x a IH]; simpl; [done|]. destruct (p x); simpl; done. Qed.

Lemma skip_while_suffix (l : list A) : suffix (skip_while p l) l.
Proof. exists (span_while p l). by rewrite span_skip. Qed.

Lemma span_app_stop (a : list A) (x : A) (r : list A) :
  forallb p a = true → p x = false →
  span_while p (a ++ x :: r) = a ∧ skip_while p (a ++ x :: r) = x :: r.
Proof.
  intros Ha Hx. induction a as [|y a IH]; simpl in *.
  - by rewrite Hx.
  - apply andb_true_iff in Ha as [-> Ha]. destruct (IH Ha) as [-> ->]. done.
Qed.
End ScanningFacts.

(** ** Character facts *)

Lemma space_is_sep c : isspace c = true → label_sep c = true.
Proof. unfold label_sep. intros ->. by rewrite orb_true_r. Qed.

Lemma newline_is_space c : not_newline c = false → isspace c = true ∧ c ≠ space.
Proof.
  unfold not_newline. intros H%negb_false_iff%Ascii.eqb_eq. subst c.
  split; [reflexivity | discriminate].
Qed.

Lemma eqb_space c : Ascii.eqb c space = true → c = space.
Proof. apply Ascii.eqb_eq. Qed.

(** ** Stripping *)

Lemma lstrip_fix s : no_lead_ws s = true → lstrip s = s.
Proof. destruct s as [|c r]; simpl; [done|]. unfold lstrip. simpl. by destruct (isspace c). Qed.

Lemma rstrip_cons c r :
  rstrip (c :: r) =
    match rstrip r with
    | [] => if isspace c then [] else [c]
    | r' => c :: r'
    end.
Proof.
  unfold rstrip. simpl rev at 2. rewrite skip_while_app.
  destruct (forallb isspace (rev r)) eqn:E.
  - rewrite (skip_while_all _ _ E). simpl. by destruct (isspace c).
  - rewrite rev_app_distr. simpl.
    destruct (rev (skip_while isspace (rev r))) as [|x l] eqn:E2; [|done].
    apply (f_equal (@rev _)) in E2. rewrite rev_involutive in E2. simpl in E2.
    apply skip_while_nil_all in E2. congruence.
Qed.

Lemma rstrip_fix s : tidy s = true → rstrip s = s.
Proof.
  induction s as [|c r IH]; [done|]. intros H. simpl in H.
  apply andb_true_iff in H as [Hc Hr]. rewrite rstrip_cons, (IH Hr).
  destruct r as [|d r']; [|done].
  destruct (isspace c); [|done]. simpl in Hc. by rewrite andb_false_r in Hc.
Qed.

Lemma strip_fix s : is_clean s = true → strip s = s.
Proof.
  unfold is_clean, strip. intros [H1 H2]%andb_true_iff.
  rewrite (lstrip_fix _ H1). by apply rstrip_fix.
Qed.

(** ** [clean_text] *)

Lemma sub_ws_run_no_lead s :
  no_lead_ws (sub_runs_from isspace space true s) = true.
Proof.
  induction s as [|c r IH]; simpl; [done|].
  destruct (isspace c) eqn:E; [done|]. simpl. by rewrite E.
Qed.

Lemma lstrip_sub_ws s : lstrip (sub_ws s) = sub_runs_from isspace space true s.
Proof.
  unfold sub_ws, sub_runs. destruct s as [|c r]; simpl; [done|].
  destruct (isspace c) eqn:E.
  - unfold lstrip. simpl. apply lstrip_fix, sub_ws_run_no_lead.
  - unfold lstrip. simpl. by rewrite E.
Qed.

Lemma clean_text_squeeze s : clean_text (Some s) = squeeze true s.
Proof. unfold clean_text, strip, squeeze. simpl. by rewrite lstrip_sub_ws. Qed.

Lemma squeeze_word b c r :
  isspace c = false → squeeze b (c :: r) = c :: squeeze false r.
Proof.
  intros E. unfold squeeze. simpl. rewrite E, rstrip_cons.
  destruct (rstrip _); by rewrite ?E.
Qed.

Lemma squeeze_true_ws c r :
  isspace c = true → squeeze true (c :: r) = squeeze true r.
Proof. intros E. unfold squeeze. simpl. by rewrite E. Qed.

Lemma squeeze_false_ws c r :
  isspace c = true →
  squeeze false (c :: r) =
    match squeeze true r with [] => [] | t => space :: t end.
Proof. intros E. unfold squeeze. simpl. rewrite E, rstrip_cons. by destruct (rstrip _). Qed.

Lemma squeeze_true_no_lead s : no_lead_ws (squeeze true s) = true.
Proof.
  induction s as [|c r IH]; [done|]. destruct (isspace c) eqn:E.
  - by rewrite squeeze_true_ws.
  - rewrite squeeze_word by done. simpl. by rewrite E.
Qed.

Lemma squeeze_tidy s : tidy (squeeze true s) = true ∧ tidy (squeeze false s) = true.
Proof.
  induction s as [|c r [IH1 IH2]]; [done|]. destruct (isspace c) eqn:E.
  - rewrite squeeze_true_ws, squeeze_false_ws by done. split; [done|].
    pose proof (squeeze_true_no_lead r) as Hl.
    destruct (squeeze true r) as [|d t]; [done|].
    change (tidy (space :: d :: t)) with
      ((negb (isspace space) || (Ascii.eqb space space && negb (isspace d)))
       && tidy (d :: t)).
    simpl in Hl. by rewrite IH1, Hl.
  - rewrite !squeeze_word by done. simpl. by rewrite E, IH2.
Qed.

Lemma clean_text_is_clean s : is_clean (clean_text s) = true.
Proof.
  destruct s as [s|]; [|done]. rewrite clean_text_squeeze. unfold is_clean.
  by rewrite squeeze_true_no_lead, (proj1 (squeeze_tidy s)).
Qed.

Lemma squeeze_fix s :
  tidy s = true →
  squeeze false s = s ∧ (no_lead_ws s = true → squeeze true s = s).
Proof.
  induction s as [|c r IH]; [done|]. simpl. intros [Hc Hr]%andb_true_iff.
  destruct (IH Hr) as [IH1 IH2]. destruct (isspace c) eqn:E; simpl in Hc.
  - apply andb_true_iff in Hc as [->%eqb_space Hd]. split; [|done].
    rewrite squeeze_false_ws by done. destruct r as [|d r']; [done|].
    rewrite IH2 by done. done.
  - rewrite !squeeze_word by done. rewrite IH1. done.
Qed.

Lemma clean_text_fix s : is_clean s = true → clean_text (Some s) = s.
Proof.
  unfold is_clean. intros [H1 H2]%andb_true_iff.
  rewrite clean_text_squeeze. by apply squeeze_fix.
Qed.

Lemma clean_text_idem s : clean_text (Some (clean_text s)) = clean_text s.
Proof. apply clean_text_fix, clean_text_is_clean. Qed.

(** Words *)

Lemma words_nonempty s : Forall (λ w, w ≠ []) (words s).
Proof.
  induction s as [|c r IH]; simpl; [done|].
  destruct (isspace c); [done|]. destruct (no_lead_ws r).
  - destruct (words r) as [|w ws]; [by repeat constructor|].
    inversion IH; subst. by constructor.
  - by constructor.
Qed.

Lemma join_words_cons_char c w ws :
  join_words ((c :: w) :: ws) = c :: join_words (w :: ws).
Proof. by destruct ws. Qed.

Lemma join_words_nil_inv ws :
  Forall (λ w, w ≠ []) ws → join_words ws = [] → ws = [].
Proof.
  destruct ws as [|w rest]; [done|]. intros H. inversion H as [|? ? Hw _]; subst.
  simpl. destruct rest; [done|]. by destruct w.
Qed.

Lemma squeeze_words s :
  squeeze true s = join_words (words s) ∧
  squeeze false s =
    match s with
    | [] => []
    | c :: _ =>
        if isspace c
        then match join_words (words s) with [] => [] | t => space :: t end
        else join_words (words s)
    end.
Proof.
  induction s as [|c r [IH1 IH2]]; [done|].
  destruct (isspace c) eqn:E.
  - rewrite squeeze_true_ws, squeeze_false_ws by done. simpl. rewrite E.
    by rewrite IH1.
  - rewrite !squeeze_word by done.
    assert (c :: squeeze false r = join_words (words (c :: r))) as ->; [|done].
    simpl words. rewrite E. rewrite IH2. destruct r as [|d r']; [done|].
    simpl no_lead_ws. destruct (isspace d) eqn:Ed; simpl negb; cbv iota.
    + pose proof (words_nonempty (d :: r')) as Hne.
      destruct (join_words (words (d :: r'))) as [|x t] eqn:Ej.
      * by rewrite (join_words_nil_inv _ Hne Ej).
      * destruct (words (d :: r')) as [|w ws]; [done|]. simpl. by rewrite <- Ej.
    + destruct (words (d :: r')) as [|w ws] eqn:Ew.
      * exfalso. simpl in Ew. rewrite Ed in Ew.
        destruct (no_lead_ws r'); [by destruct (words r')|done].
      * by rewrite join_words_cons_char.
Qed.

Lemma clean_text_words s : clean_text (Some s) = join_words (words s).
Proof. rewrite clean_text_squeeze. apply squeeze_words. Qed.

(** [tidy] strings are normalized. *)
Lemma tidy_normal s : tidy s = true → no_trail_ws s = true ∧ no_ws_run s = true.
Proof.
  induction s as [|c r IH]; [done|]. simpl. intros [Hc Hr]%andb_true_iff.
  destruct (IH Hr) as [IH1 IH2]. destruct r as [|d r'].
  - split; [|done]. destruct (isspace c); [|done]. simpl in Hc. by rewrite andb_false_r in Hc.
  - split; [done|]. rewrite IH2, andb_true_r.
    destruct (isspace c); [|done]. simpl in Hc.
    apply andb_true_iff in Hc as [_ Hd]. apply negb_true_iff in Hd. by rewrite Hd.
Qed.

Lemma is_clean_normalized s : is_clean s = true → normalized s = true.
Proof.
  unfold is_clean, normalized. intros [H1 H2]%andb_true_iff.
  destruct (tidy_normal s H2) as [-> ->]. by rewrite H1.
Qed.

Lemma tidy_suffix s t : tidy (s ++ t) = true → tidy t = true.
Proof.
  induction s as [|c r IH]; [done|]. simpl. intros [_ H]%andb_true_iff. auto.
Qed.

Lemma tidy_no_newline s : tidy s = true → forallb not_newline s = true.
Proof.
  induction s as [|c r IH]; [done|]. simpl. intros [Hc Hr]%andb_true_iff.
  rewrite (IH Hr), andb_true_r. destruct (not_newline c) eqn:E; [done|].
  apply newline_is_space in E as [E1 E2]. rewrite E1 in Hc. simpl in Hc.
  apply andb_true_iff in Hc as [Hc%eqb_space _]. done.
Qed.

(** ** [normalize_abstract] *)

Lemma match_icase_split word s rest :
  match_icase word s = Some rest →
  ∃ w, s = w ++ rest ∧ unicode_tolower <$> w = unicode_tolower <$> word.
Proof.
  revert s. induction word as [|l word IH]; intros s; simpl.
  - intros [= ->]. by exists [].
  - destruct s as [|c s']; [done|]. unfold icase_eq.
    destruct (Ascii.eqb _ _) eqn:E; [|done]. apply Ascii.eqb_eq in E.
    intros (w & -> & Hw)%IH. exists (c :: w). by rewrite !fmap_cons, E, Hw.
Qed.

Lemma sub_abstract_label_clean t :
  is_clean t = true → is_clean (sub_abstract_label t) = true.
Proof.
  intros Ht. unfold sub_abstract_label.
  destruct (match_icase _ _) as [rest|] eqn:E; [|done].
  apply match_icase_split in E as (w & E & _).
  pose proof (skip_while_suffix isspace t) as [u Hu]. rewrite E in Hu.
  pose proof (skip_while_suffix label_sep rest) as [v Hv].
  apply andb_true_iff in Ht as [_ Ht].
  unfold is_clean. apply andb_true_iff. split.
  - destruct (skip_while label_sep rest) as [|c r] eqn:Es; [done|].
    apply skip_while_head in Es. simpl.
    destruct (isspace c) eqn:Ec; [|done]. by rewrite (space_is_sep _ Ec) in Es.
  - rewrite Hu, Hv in Ht. by do 3 apply tidy_suffix in Ht.
Qed.

Lemma sub_abstract_label_skips t :
  no_lead_ws t = true →
  sub_abstract_label t =
    match match_icase (py "Abstract") t with
    | Some rest => skip_while label_sep rest
    | None => t
    end.
Proof. intros H. unfold sub_abstract_label. fold (lstrip t). by rewrite lstrip_fix. Qed.

Lemma normalize_abstract_eq text :
  normalize_abstract text = sub_abstract_label (clean_text text).
Proof.
  unfold normalize_abstract. destruct text as [[|c s]|]; done.
Qed.

Lemma normalize_abstract_clean text : is_clean (normalize_abstract text) = true.
Proof. rewrite normalize_abstract_eq. apply sub_abstract_label_clean, clean_text_is_clean. Qed.

Lemma clean_text_no_lead text : no_lead_ws (clean_text text) = true.
Proof. pose proof (clean_text_is_clean text) as H. by apply andb_true_iff in H as [? _]. Qed.

Lemma normalize_abstract_cases text :
  normalize_abstract text =
    match match_icase (py "Abstract") (clean_text text) with
    | Some rest => skip_while label_sep rest
    | None => clean_text text
    end.
Proof. rewrite normalize_abstract_eq. apply sub_abstract_label_skips, clean_text_no_lead. Qed.

(** ** The claim pattern *)

Lemma dot_not_decimal : isdecimal dot = false.
Proof. reflexivity. Qed.

Lemma match_claim_spec c g1 g2 :
  match_claim c = Some (g1, g2) ↔
  ∃ rest, c = g1 ++ dot :: rest ∧ g1 ≠ [] ∧ forallb isdecimal g1 = true ∧
          g2 = span_while not_newline (skip_while isspace rest).
Proof.
  unfold match_claim. split.
  - pose proof (span_skip isdecimal c) as Hc.
    pose proof (span_while_all isdecimal c) as Hd.
    destruct (span_while isdecimal c) as [|x ds]; [done|].
    destruct (skip_while isdecimal c) as [|d rest]; [done|].
    destruct (Ascii.eqb d dot) eqn:E; [|done]. apply Ascii.eqb_eq in E. subst d.
    intros [= <- <-]. by exists rest.
  - intros (rest & -> & Hne & Hd & ->).
    destruct (span_app_stop isdecimal g1 dot rest Hd dot_not_decimal) as [-> ->].
    destruct g1; [done|]. by rewrite Ascii.eqb_refl.
Qed.

Lemma parse_item_spec c cl :
  parse_item c = Some cl ↔
  ∃ ds rest, c = ds ++ dot :: rest ∧ ds ≠ [] ∧ forallb isdecimal ds = true ∧
    cl = {| claim_number := int ds;
            text := strip (span_while not_newline (skip_while isspace rest)) |}.
Proof.
  unfold parse_item. split.
  - destruct (match_claim c) as [[g1 g2]|] eqn:E; [|done]. intros [= <-].
    apply match_claim_spec in E as (rest & ? & ? & ? & ->). by exists g1, rest.
  - intros (ds & rest & Hc & Hne & Hd & ->).
    assert (match_claim c = Some (ds, span_while not_newline (skip_while isspace rest))) as ->; [|done].
    apply match_claim_spec. by exists rest.
Qed.

Lemma looks_numbered_dot ds rest :
  ds ≠ [] → forallb isdecimal ds = true →
  looks_numbered (ds ++ dot :: rest) = true →
  ∃ w t, rest = w :: t ∧ isspace w = true.
Proof.
  intros Hne Hd. unfold looks_numbered, match_num_dot_ws, match_num_ws.
  destruct (span_app_stop isdecimal ds dot rest Hd dot_not_decimal) as [-> ->].
  destruct ds; [done|]. rewrite Ascii.eqb_refl. simpl.
  destruct rest as [|w t]; [done|]. rewrite orb_false_r. intros ?. by exists w, t.
Qed.

Lemma tidy_after_space s t :
  tidy (s ++ space :: t) = true → is_clean t = true ∧ t ≠ [].
Proof.
  intros H%tidy_suffix. simpl in H. apply andb_true_iff in H as [H1 H2].
  destruct t as [|e t']; [done|]. simpl in H1. unfold is_clean. simpl no_lead_ws.
  by rewrite H1, H2.
Qed.

Lemma tidy_ws_is_space s w t :
  tidy (s ++ w :: t) = true → isspace w = true → w = space.
Proof.
  intros H%tidy_suffix Hw. simpl in H. rewrite Hw in H. simpl in H.
  apply andb_true_iff in H as [[H%eqb_space _]%andb_true_iff _]. done.
Qed.

Lemma text_of_clean_rest t :
  is_clean t = true →
  strip (span_while not_newline (skip_while isspace (space :: t))) = t.
Proof.
  intros Ht. simpl. pose proof Ht as [H1 H2]%andb_true_iff.
  fold (lstrip t). rewrite (lstrip_fix _ H1).
  rewrite (span_while_id _ _ (tidy_no_newline _ H2)). by apply strip_fix.
Qed.

Lemma parse_item_raw c cl :
  raw_item c = true →
  parse_item c = Some cl ↔
  ∃ ds t, c = ds ++ dot :: space :: t ∧ ds ≠ [] ∧ forallb isdecimal ds = true ∧
          t ≠ [] ∧ cl = {| claim_number := int ds; text := t |}.
Proof.
  unfold raw_item. intros [[_ Hc]%andb_true_iff Hn]%andb_true_iff.
  rewrite parse_item_spec. split.
  - intros (ds & rest & -> & Hne & Hd & ->).
    destruct (looks_numbered_dot ds rest Hne Hd Hn) as (w & t & -> & Hw).
    assert (w = space) as ->.
    { apply (tidy_ws_is_space (ds ++ [dot]) w t); [|exact Hw].
      rewrite <- app_assoc. exact Hc. }
    assert (is_clean t = true ∧ t ≠ []) as [Ht Hne'].
    { apply (tidy_after_space (ds ++ [dot])). rewrite <- app_assoc. exact Hc. }
    exists ds, t. by rewrite text_of_clean_rest.
  - intros (ds & t & -> & Hne & Hd & Hne' & ->). exists ds, (space :: t).
    assert (is_clean t = true) as Ht.
    { apply (tidy_after_space (ds ++ [dot])). rewrite <- app_assoc. exact Hc. }
    by rewrite text_of_clean_rest.
Qed.

(** ** The deduplicating loop *)

Lemma parse_loop (claims : list str) acc seen :
  (foldl parse_step (acc, seen) claims).1 =
    acc ++ keep_unseen seen (omap parse_item claims).
Proof.
  revert acc seen. induction claims as [|c r IH]; intros acc seen; simpl.
  - by rewrite app_nil_r.
  - unfold parse_step at 2. destruct (parse_item c) as [cl|]; simpl; [|apply IH].
    destruct (decide (claim_number cl ∈ seen)); [apply IH|].
    by rewrite IH, <- app_assoc.
Qed.

Lemma parse_claims_keep claims :
  parse_claims claims = keep_unseen ∅ (omap parse_item claims).
Proof. unfold parse_claims. by rewrite parse_loop. Qed.

Lemma claims_loop_body_step st c :
  claims_loop_body st c =
    if overflows c then inl ValueError else inr (parse_step st c).
Proof.
  unfold claims_loop_body, overflows, parse_step, parse_item.
  destruct (match_claim c) as [[g1 g2]|]; [|done].
  destruct (int_raises g1); [done|]. simpl. by destruct (decide _).
Qed.

Lemma claims_loop_from_spec st claims :
  claims_loop_from st claims =
    if existsb overflows claims then inl ValueError
    else inr (foldl parse_step st claims).
Proof.
  revert st. induction claims as [|c rest IH]; intros st; [done|].
  cbn [claims_loop_from existsb foldl]. rewrite claims_loop_body_step.
  destruct (overflows c); [done|]. apply IH.
Qed.

Lemma claims_loop_spec claims :
  claims_loop claims =
    if existsb overflows claims then inl ValueError
    else inr (parse_claims claims).
Proof.
  unfold claims_loop. rewrite claims_loop_from_spec.
  by destruct (existsb overflows claims).
Qed.

Lemma keep_unseen_filter seen items :
  keep_unseen seen items =
    filter (λ y, claim_number y ∉ seen) (first_seen items).
Proof.
  revert seen. induction items as [|x r IH]; intros seen; [done|].
  cbn [keep_unseen first_seen].
  destruct (decide (claim_number x ∈ seen)) as [Hx|Hx].
  - rewrite filter_cons_False by (by intros ?).
    rewrite list_filter_filter, IH.
    apply list_filter_iff. intros y. split; [|by intros [? _]].
    intros Hy. split; [done|]. intros E. by rewrite E in Hy.
  - rewrite filter_cons_True by done. f_equal.
    rewrite list_filter_filter, IH.
    apply list_filter_iff. intros y.
    rewrite not_elem_of_union, not_elem_of_singleton. done.
Qed.

Lemma filter_all {A} (P : A → Prop) `{∀ x, Decision (P x)} (l : list A) :
  (∀ x, P x) → filter P l = l.
Proof.
  intros HP. induction l as [|x l IH]; [done|].
  by rewrite filter_cons_True, IH.
Qed.

Lemma keep_unseen_first_seen items : keep_unseen ∅ items = first_seen items.
Proof.
  rewrite keep_unseen_filter. apply filter_all. intros y. apply not_elem_of_empty.
Qed.

Lemma keep_unseen_sublist seen items : sublist (keep_unseen seen items) items.
Proof.
  revert seen. induction items as [|x r IH]; intros seen; simpl; [done|].
  destruct (decide _); [apply sublist_cons | apply sublist_skip]; apply IH.
Qed.

Lemma keep_unseen_fresh seen items x :
  x ∈ keep_unseen seen items → claim_number x ∉ seen.
Proof.
  revert seen. induction items as [|y r IH]; intros seen; simpl; [by intros ?%elem_of_nil|].
  destruct (decide _) as [|Hn]; [apply IH|].
  intros [->|H]%elem_of_cons; [done|]. apply IH in H. set_solver.
Qed.

Lemma keep_unseen_NoDup seen items :
  NoDup (claim_number <$> keep_unseen seen items).
Proof.
  revert seen. induction items as [|x r IH]; intros seen; simpl; [constructor|].
  destruct (decide _); [apply IH|]. rewrite fmap_cons. constructor; [|apply IH].
  intros (y & Hy & Hin)%list_elem_of_fmap. apply keep_unseen_fresh in Hin.
  rewrite <- Hy in Hin. apply not_elem_of_union in Hin as [_ Hin].
  by apply not_elem_of_singleton in Hin.
Qed.

Lemma keep_unseen_first seen l1 x l2 :
  claim_number x ∉ seen → claim_number x ∉ claim_number <$> l1 →
  x ∈ keep_unseen seen (l1 ++ x :: l2).
Proof.
  revert seen. induction l1 as [|y l1 IH]; intros seen Hs Hl; simpl.
  - rewrite decide_False by done. apply elem_of_cons; by left.
  - rewrite fmap_cons in Hl. apply not_elem_of_cons in Hl as [Hne Hl].
    destruct (decide _); [by apply IH|].
    apply elem_of_cons; right. apply IH; [|done].
    apply not_elem_of_union. split; [done|]. by apply not_elem_of_singleton.
Qed.

Lemma keep_unseen_is_first seen items x :
  x ∈ keep_unseen seen items →
  ∃ l1 l2, items = l1 ++ x :: l2 ∧ claim_number x ∉ claim_number <$> l1.
Proof.
  revert seen. induction items as [|y r IH]; intros seen; simpl; [by intros ?%elem_of_nil|].
  destruct (decide _) as [Hy|Hy].
  - intros H. pose proof (keep_unseen_fresh _ _ _ H) as Hx.
    apply IH in H as (l1 & l2 & -> & Hl). exists (y :: l1), l2. split; [done|].
    rewrite fmap_cons. apply not_elem_of_cons. split; [|done]. intros E. by rewrite E in Hx.
  - intros [->|H]%elem_of_cons.
    + exists [], r. split; [done|]. apply not_elem_of_nil.
    + pose proof (keep_unseen_fresh _ _ _ H) as Hx.
      apply IH in H as (l1 & l2 & -> & Hl). exists (y :: l1), l2. split; [done|].
      rewrite fmap_cons. apply not_elem_of_cons. split; [|done].
      apply not_elem_of_union in Hx as [_ Hx]. by apply not_elem_of_singleton in Hx.
Qed.

(** ** What the two tiers deliver *)

Lemma match_num_dot_ws_numbered txt :
  match_num_dot_ws txt = true → looks_numbered txt = true.
Proof. unfold looks_numbered. by intros ->. Qed.

Lemma primary_claims_raw p : Forall (λ c, raw_item c = true) (primary_claims p).
Proof.
  apply Forall_forall. intros c [Hn (node & -> & _)%list_elem_of_fmap]%list_elem_of_filter.
  unfold raw_item. by rewrite clean_text_is_clean, Hn.
Qed.

Lemma split_parts_raw node : Forall (λ c, raw_item c = true) (split_parts node).
Proof.
  apply Forall_forall. intros c (piece & -> & [Hn _]%list_elem_of_filter)%list_elem_of_fmap.
  unfold raw_item. by rewrite clean_text_is_clean, (match_num_dot_ws_numbered _ Hn).
Qed.

Lemma fallback_loop_raw alt : Forall (λ c, raw_item c = true) (fallback_loop alt).
Proof.
  induction alt as [|node rest IH]; simpl; [constructor|].
  pose proof (split_parts_raw node) as H. by destruct (split_parts node).
Qed.

Lemma raw_claims_raw p : Forall (λ c, raw_item c = true) (raw_claims p).
Proof.
  unfold raw_claims. pose proof (primary_claims_raw p) as H.
  destruct (primary_claims p); [apply fallback_loop_raw | done].
Qed.

Lemma parse_claims_from claims x :
  x ∈ parse_claims claims → ∃ c, c ∈ claims ∧ parse_item c = Some x.
Proof.
  rewrite parse_claims_keep. intros H.
  pose proof (keep_unseen_sublist ∅ (omap parse_item claims)) as Hs.
  apply (elem_of_sublist _ _ _ H), list_elem_of_omap in Hs. exact Hs.
Qed.

Lemma parse_claims_text claims x :
  Forall (λ c, raw_item c = true) claims → x ∈ parse_claims claims →
  text x ≠ [] ∧ is_clean (text x) = true.
Proof.
  intros Hr (c & Hc & Hp)%parse_claims_from.
  rewrite Forall_forall in Hr. specialize (Hr c Hc).
  pose proof Hr as [[_ Ht]%andb_true_iff _]%andb_true_iff.
  apply (parse_item_raw c x Hr) in Hp as (ds & t & -> & _ & _ & Hne & ->). simpl.
  split; [done|]. apply (tidy_after_space (ds ++ [dot])). by rewrite <- app_assoc.
Qed.

(** ** Replacing runs *)

Section Runs.
Variables (cls : ascii → bool) (repl : ascii).

Lemma sub_runs_from_app b u x :
  sub_runs_from cls repl b (u ++ x) =
    sub_runs_from cls repl b u ++ sub_runs_from cls repl (run_state cls b u) x.
Proof.
  revert b. induction u as [|c u IH]; intros b; [done|].
  assert (run_state cls b (c :: u) = run_state cls (cls c) u) as ->.
  { unfold run_state. destruct u as [|a u]; [done|]. rewrite last_cons_cons.
    destruct (last (a :: u)) eqn:E; [done|]. by apply last_None in E. }
  simpl. destruct (cls c) eqn:E; [destruct b|]; by rewrite IH.
Qed.

Lemma sub_runs_from_run b w :
  forallb cls w = true → w ≠ [] →
  sub_runs_from cls repl b w = if b then [] else [repl].
Proof.
  revert b. induction w as [|c w IH]; intros b Hw Hne; [done|]. simpl in *.
  apply andb_true_iff in Hw as [-> Hw]. destruct w as [|d w'].
  - by destruct b.
  - rewrite (IH true) by done. by destruct b.
Qed.

Lemma sub_runs_from_start b v :
  match v with c :: _ => cls c = false | [] => True end →
  sub_runs_from cls repl b v = sub_runs_from cls repl false v.
Proof. destruct v as [|c v]; [done|]. simpl. by intros ->. Qed.

Lemma sub_runs_keep s :
  forallb (λ c, negb (cls c)) s = true → sub_runs cls repl s = s.
Proof.
  unfold sub_runs. induction s as [|c s IH]; [done|]. simpl.
  intros [Hc Hs]%andb_true_iff. apply negb_true_iff in Hc. rewrite Hc.
  by rewrite IH.
Qed.

Lemma sub_runs_maximal u w v :
  w ≠ [] → forallb cls w = true →
  match last u with Some c => cls c = false | None => True end →
  match v with c :: _ => cls c = false | [] => True end →
  sub_runs cls repl (u ++ w ++ v) =
    sub_runs cls repl u ++ repl :: sub_runs cls repl v.
Proof.
  intros Hne Hw Hu Hv. unfold sub_runs. rewrite !sub_runs_from_app.
  assert (run_state cls false u = false) as ->.
  { unfold run_state. by destruct (last u). }
  rewrite (sub_runs_from_run false w) by done.
  by rewrite (sub_runs_from_start _ v Hv).
Qed.

Lemma sub_runs_from_no_cls b s :
  cls repl = false →
  forallb (λ c, negb (cls c)) (sub_runs_from cls repl b s) = true.
Proof.
  intros Hr. revert b. induction s as [|c s IH]; intros b; [done|]. simpl.
  destruct (cls c) eqn:E.
  - destruct b; [apply IH|]. simpl. by rewrite Hr, IH.
  - simpl. by rewrite E, IH.
Qed.
End Runs.

(** C1: the loop turns the raw claims [1. Foo], [2. Bar], [1. Duplicate]
    into exactly the records (1, Foo) and (2, Bar); and for every list of
    raw claims, with [items] the records of the matching claims in order,
    the loop ends with [out], unless [int] raises, where [out] is
    [items] with the first item of each number kept and every later item
    of that number removed, in the order of [items]: it is a sublist of
    [items], holds every item whose number no earlier item carries, holds
    nothing else, and holds each number once. *)
Theorem parse_claims_first_seen :
  claims_loop foo_bar_duplicate = inr [claim_1_foo; claim_2_bar] ∧
  parse_claims foo_bar_duplicate = [claim_1_foo; claim_2_bar] ∧
  ∀ claims : list str,
    let items := omap parse_item claims in
    let out := parse_claims claims in
    claims_loop claims =
      (if existsb overflows claims then inl ValueError else inr out) ∧
    out = first_seen items ∧
    out = keep_unseen ∅ items ∧
    sublist out items ∧
    NoDup (claim_number <$> out) ∧
    (∀ l1 x l2, items = l1 ++ x :: l2 →
       claim_number x ∉ claim_number <$> l1 → x ∈ out) ∧
    (∀ x, x ∈ out →
       ∃ l1 l2, items = l1 ++ x :: l2 ∧
                claim_number x ∉ claim_number <$> l1).
Proof.
  split; [by vm_compute|]. split; [by vm_compute|].
  intros claims items out. subst items out.
  split; [apply claims_loop_spec|].
  rewrite parse_claims_keep. split_and!.
  - apply keep_unseen_first_seen.
  - done.
  - apply keep_unseen_sublist.
  - apply keep_unseen_NoDup.
  - intros l1 x l2 -> Hx. apply keep_unseen_first; [apply not_elem_of_empty|done].
  - apply keep_unseen_is_first.
Qed.

Lemma parse_claims_first_seen_witness :
  claim_2_bar ∈ parse_claims foo_bar_duplicate.
Proof.
  destruct parse_claims_first_seen as (_ & _ & H).
  destruct (H foo_bar_duplicate) as (_ & _ & _ & _ & _ & Hfirst & _).
  apply (Hfirst [claim_1_foo] claim_2_bar [{| claim_number := 1; text := py "Duplicate" |}]).
  - reflexivity.
  - intros Hin%list_elem_of_singleton. discriminate Hin.
Defined.

Lemma claims_loop_body_match st ds rest :
  ds ≠ [] → forallb isdecimal ds = true →
  claims_loop_body st (ds ++ dot :: rest) =
    if int_raises ds then inl ValueError
    else if decide (int ds ∈ st.2) then inr st
    else inr (st.1 ++
                [{| claim_number := int ds;
                    text := strip (span_while not_newline
                                     (skip_while isspace rest)) |}],
              st.2 ∪ {[int ds]}).
Proof.
  intros Hne Hd. unfold claims_loop_body.
  assert (match_claim (ds ++ dot :: rest) =
          Some (ds, span_while not_newline (skip_while isspace rest))) as ->.
  { apply match_claim_spec. by exists rest. }
  done.
Qed.

Lemma claims_loop_body_no_match st c :
  (∀ ds rest, c = ds ++ dot :: rest → ds ≠ [] →
     forallb isdecimal ds = true → False) →
  claims_loop_body st c = inr st.
Proof.
  intros H. unfold claims_loop_body.
  destruct (match_claim c) as [[g1 g2]|] eqn:E; [|done].
  apply match_claim_spec in E as (rest & -> & Hne & Hd & _).
  by destruct (H g1 rest).
Qed.

Lemma claims_loop_body_first c cl :
  claims_loop_body ([], ∅) c = inr ([cl], {[claim_number cl]}) ↔
  ∃ ds rest, c = ds ++ dot :: rest ∧ ds ≠ [] ∧
    forallb isdecimal ds = true ∧ int_raises ds = false ∧
    cl = {| claim_number := int ds;
            text := strip (span_while not_newline
                             (skip_while isspace rest)) |}.
Proof.
  split.
  - unfold claims_loop_body.
    destruct (match_claim c) as [[g1 g2]|] eqn:E; [|done].
    apply match_claim_spec in E as (rest & -> & Hne & Hd & ->).
    destruct (int_raises g1) eqn:Er; [done|].
    rewrite decide_False by apply not_elem_of_empty.
    intros [= <-]. by exists g1, rest.
  - intros (ds & rest & -> & Hne & Hd & Hr & ->).
    rewrite claims_loop_body_match, Hr by done.
    rewrite decide_False by apply not_elem_of_empty.
    simpl. by rewrite (left_id_L ∅ (∪)).
Qed.

(** C2, counterexample: a raw claim of 4301 digits, a dot, a space and
    [Foo] matches the claim pattern and passes the filter of the first
    tier, but it yields no record and is not dropped either: [int] raises
    [ValueError], which ends the loop and [scrape_google_patents]. *)
Lemma long_number_raises :
  match_claim long_number_claim =
    Some (replicate (S int_max_str_digits) "1"%char, py "Foo") ∧
  raw_item long_number_claim = true ∧
  claims_loop_body ([], ∅) long_number_claim = inl ValueError ∧
  claims_loop [long_number_claim] = inl ValueError ∧
  (scrape_google_patents net_long_number
     (py "https://patents.google.com/patent/US1A/en") empty_world).1 =
    inl ValueError ∧
  ¬ (∀ ds rest, ds ≠ [] → forallb isdecimal ds = true →
       ∃ cl, claims_loop [ds ++ dot :: rest] = inr [cl]).
Proof.
  split_and!; [by vm_compute..|]. intros H.
  destruct (H (replicate (S int_max_str_digits) "1"%char) (py " Foo"))
    as [cl Hcl]; [done|by vm_compute|].
  vm_compute in Hcl. discriminate Hcl.
Qed.

(** C2, amended: in the loop body a raw claim that starts with one or
    more digits and a dot, the digits being at most 4300, yields the
    record of the integer of the digits and the stripped remainder (of its
    first line, after any whitespace), added to the parsed claims when
    the number was not seen before; with more digits [int] raises
    [ValueError]; every other raw claim leaves the state as it is.  From
    the empty state a record results exactly for the claims of the first
    kind, and for the raw claims the two tiers deliver, which are cleaned
    and look numbered, exactly for the shape digits, dot, space, text.
    [See claim 1] adds nothing, and neither does [1 Foo], which the first
    tier accepts. *)
Theorem claims_loop_body_pattern :
  (∀ st ds rest, ds ≠ [] → forallb isdecimal ds = true →
     claims_loop_body st (ds ++ dot :: rest) =
       if int_raises ds then inl ValueError
       else if decide (int ds ∈ st.2) then inr st
       else inr (st.1 ++
                   [{| claim_number := int ds;
                       text := strip (span_while not_newline
                                        (skip_while isspace rest)) |}],
                 st.2 ∪ {[int ds]})) ∧
  (∀ st c,
     (∀ ds rest, c = ds ++ dot :: rest → ds ≠ [] →
        forallb isdecimal ds = true → False) →
     claims_loop_body st c = inr st) ∧
  (∀ c cl,
     claims_loop_body ([], ∅) c = inr ([cl], {[claim_number cl]}) ↔
     ∃ ds rest, c = ds ++ dot :: rest ∧ ds ≠ [] ∧
       forallb isdecimal ds = true ∧ int_raises ds = false ∧
       cl = {| claim_number := int ds;
               text := strip (span_while not_newline
                                (skip_while isspace rest)) |}) ∧
  (∀ c cl, raw_item c = true →
     claims_loop_body ([], ∅) c = inr ([cl], {[claim_number cl]}) ↔
     ∃ ds t, c = ds ++ dot :: space :: t ∧ ds ≠ [] ∧
       forallb isdecimal ds = true ∧ int_raises ds = false ∧ t ≠ [] ∧
       cl = {| claim_number := int ds; text := t |}) ∧
  (∀ c cl,
     parse_item c = Some cl ↔
     ∃ ds rest, c = ds ++ dot :: rest ∧ ds ≠ [] ∧
       forallb isdecimal ds = true ∧
       cl = {| claim_number := int ds;
               text := strip (span_while not_newline
                                (skip_while isspace rest)) |}) ∧
  (∀ st c, parse_item c = None → parse_step st c = st) ∧
  (∀ st, claims_loop_body st (py "See claim 1") = inr st) ∧
  (raw_item (py "1 Foo") = true ∧
   ∀ st, claims_loop_body st (py "1 Foo") = inr st).
Proof.
  split_and!; try done.
  - apply claims_loop_body_match.
  - apply claims_loop_body_no_match.
  - apply claims_loop_body_first.
  - intros c cl Hraw. rewrite claims_loop_body_first. split.
    + intros (ds & rest & Hc & Hne & Hd & Hr & Hcl).
      assert (parse_item c = Some cl) as Hp.
      { apply parse_item_spec. by exists ds, rest. }
      apply (parse_item_raw c cl Hraw) in Hp as (ds' & t & Hc' & Hne' & Hd' & Ht & ->).
      exists ds', t. split_and!; try done.
      assert (ds' = ds) as ->; [|done].
      destruct (span_app_stop isdecimal ds dot rest Hd dot_not_decimal) as [H1 _].
      destruct (span_app_stop isdecimal ds' dot (space :: t) Hd' dot_not_decimal)
        as [H2 _].
      rewrite <- Hc in H1. rewrite <- Hc' in H2. congruence.
    + intros (ds & t & Hc & Hne & Hd & Hr & Ht & Hcl).
      assert (parse_item c = Some cl) as Hp.
      { apply (parse_item_raw c cl Hraw). by exists ds, t. }
      apply parse_item_spec in Hp as (ds' & rest & Hc' & Hne' & Hd' & ->).
      exists ds', rest. split_and!; try done.
      assert (ds' = ds) as ->; [|done].
      destruct (span_app_stop isdecimal ds dot (space :: t) Hd dot_not_decimal)
        as [H1 _].
      destruct (span_app_stop isdecimal ds' dot rest Hd' dot_not_decimal) as [H2 _].
      rewrite <- Hc in H1. rewrite <- Hc' in H2. congruence.
  - apply parse_item_spec.
  - intros st c H. unfold parse_step. by rewrite H.
Qed.

Lemma claims_loop_body_pattern_witness :
  claims_loop_body ([claim_1_foo], {[1]}) (py "12. A gear.") =
    inr ([claim_1_foo; {| claim_number := 12; text := py "A gear." |}],
         {[1]} ∪ {[12]}) ∧
  claims_loop_body ([claim_1_foo], {[1]}) (py "1 Foo") =
    inr ([claim_1_foo], {[1]}).
Proof.
  destruct claims_loop_body_pattern as (Hmatch & _ & _ & _ & _ & _ & _ & _ & Hdrop).
  split.
  - rewrite (Hmatch ([claim_1_foo], {[1]}) (py "12") (py " A gear."));
      [reflexivity | discriminate | reflexivity].
  - apply Hdrop.
Defined.

(** C3, counterexample: a page whose claim element reads [0. Foo] gives
    the raw claim [0. Foo] and the record (0, Foo), whose number is not at
    least 1. *)
Lemma claim_number_zero :
  raw_claims page_claim_zero = [py "0. Foo"] ∧
  parse_claims (raw_claims page_claim_zero) =
    [{| claim_number := 0; text := py "Foo" |}] ∧
  ¬ Claim_invariant (parse_claims (raw_claims page_claim_zero)).
Proof.
  split_and!; [by vm_compute..|]. intros [_ H].
  destruct (H {| claim_number := 0; text := py "Foo" |}) as [Hle _].
  - vm_compute. by apply elem_of_cons; left.
  - simpl in Hle. lia.
Qed.

(** C3, amended: the claim numbers of the result are pairwise distinct for
    every list of raw claims; for every list of raw claims as the two
    tiers deliver them (cleaned text that looks numbered), every record has
    a number of at least 0 and a text that is not empty and is
    whitespace-normalized; and the raw claims of every page are of that
    kind. *)
Theorem claims_invariant :
  (∀ claims, NoDup (claim_number <$> parse_claims claims)) ∧
  (∀ claims x, Forall (λ c, raw_item c = true) claims →
     x ∈ parse_claims claims →
     0 ≤ claim_number x ∧ text x ≠ [] ∧ normalized (text x) = true) ∧
  (∀ p, Forall (λ c, raw_item c = true) (raw_claims p)).
Proof.
  split_and!.
  - intros claims. rewrite parse_claims_keep. apply keep_unseen_NoDup.
  - intros claims x Hr Hx. destruct (parse_claims_text claims x Hr Hx) as [Hne Hc].
    split_and!; [lia|done|by apply is_clean_normalized].
  - apply raw_claims_raw.
Qed.

Lemma claims_invariant_witness :
  text claim_2_bar ≠ [] ∧ normalized (text claim_2_bar) = true.
Proof.
  destruct claims_invariant as (_ & H & _).
  destruct (H foo_bar_duplicate claim_2_bar) as (_ & Hne & Hn).
  - repeat constructor.
  - vm_compute. apply elem_of_cons; right. by apply elem_of_cons; left.
  - by split.
Defined.

Lemma words_no_ws s : Forall (λ w, forallb (λ c, negb (isspace c)) w = true) (words s).
Proof.
  induction s as [|c r IH]; simpl; [done|].
  destruct (isspace c) eqn:E; [done|]. destruct (no_lead_ws r).
  - destruct (words r) as [|w ws]; [repeat constructor; simpl; by rewrite E|].
    inversion IH; subst. constructor; [|done]. simpl. by rewrite E.
  - constructor; [|done]. simpl. by rewrite E.
Qed.

Lemma words_concat s : concat (words s) = filter (λ c, isspace c = false) s.
Proof.
  induction s as [|c r IH]; [done|]. simpl words.
  destruct (isspace c) eqn:E.
  - rewrite filter_cons_False by (by rewrite E). done.
  - rewrite filter_cons_True by done. rewrite <- IH.
    destruct (no_lead_ws r); [|done]. by destruct (words r).
Qed.

Lemma tidy_only_spaces s c :
  tidy s = true → c ∈ s → isspace c = true → c = space.
Proof.
  intros Ht [u [v ->]]%list_elem_of_split Hc. by apply (tidy_ws_is_space u c v).
Qed.

(** C4: [clean_text] returns the empty string for [None] and for the
    empty string; for every string it returns the maximal runs of
    characters that are not whitespace, in order, with one space between
    neighbours, so each whitespace run between two of them has become one
    space and the runs at both ends are gone; the result has no leading
    and no trailing whitespace, no two whitespace characters in a row, and
    no whitespace character but the space. *)
Theorem clean_text_collapses :
  clean_text None = [] ∧ clean_text (Some []) = [] ∧
  ∀ s : str,
    clean_text (Some s) = join_words (words s) ∧
    Forall (λ w, w ≠ [] ∧ forallb (λ c, negb (isspace c)) w = true) (words s) ∧
    concat (words s) = filter (λ c, isspace c = false) s ∧
    no_lead_ws (clean_text (Some s)) = true ∧
    no_trail_ws (clean_text (Some s)) = true ∧
    no_ws_run (clean_text (Some s)) = true ∧
    (∀ c, c ∈ clean_text (Some s) → isspace c = true → c = space).
Proof.
  split_and!; [done..|]. intros s.
  pose proof (clean_text_is_clean (Some s)) as [Hl Ht]%andb_true_iff.
  destruct (tidy_normal _ Ht) as [Htr Hrun]. split_and!; try done.
  - apply clean_text_words.
  - pose proof (words_nonempty s) as H1. pose proof (words_no_ws s) as H2.
    rewrite Forall_forall in *. intros w Hw. split; [by apply H1 | by apply H2].
  - apply words_concat.
  - intros c. by apply tidy_only_spaces.
Qed.

Lemma clean_text_collapses_witness :
  clean_text (Some (py "  a   b ")) = py "a b".
Proof.
  destruct clean_text_collapses as (_ & _ & H).
  destruct (H (py "  a   b ")) as (-> & _). reflexivity.
Defined.

(** C5, counterexample: for [Abstract Abstract syntax trees are compared.]
    the first application removes one label and the second removes the
    word that follows it, so the two results differ. *)
Lemma normalize_abstract_not_idempotent :
  normalize_abstract (Some abstract_abstract) =
    py "Abstract syntax trees are compared." ∧
  normalize_abstract (Some (normalize_abstract (Some abstract_abstract))) =
    py "syntax trees are compared." ∧
  ¬ (∀ s, normalize_abstract (Some (normalize_abstract s)) =
          normalize_abstract s).
Proof.
  split_and!; [by vm_compute..|]. intros H.
  specialize (H (Some abstract_abstract)). vm_compute in H. discriminate H.
Qed.

Lemma skip_while_length {A} (p : A → bool) l :
  (length (skip_while p l) ≤ length l)%nat.
Proof.
  rewrite <- (span_skip p l) at 2. rewrite length_app. lia.
Qed.

(** C5, amended: applying [normalize_abstract] to its own result changes
    nothing exactly when that result does not begin with the word
    Abstract (in any case). *)
Theorem normalize_abstract_twice (s : option str) :
  normalize_abstract (Some (normalize_abstract s)) = normalize_abstract s ↔
  match_icase (py "Abstract") (normalize_abstract s) = None.
Proof.
  rewrite (normalize_abstract_cases (Some _)).
  rewrite (clean_text_fix _ (normalize_abstract_clean s)).
  destruct (match_icase _ (normalize_abstract s)) as [rest|] eqn:E; [|done].
  split; [|done]. intros H. exfalso.
  apply match_icase_split in E as (w & E & Hw).
  apply (f_equal length) in Hw, E, H. rewrite !length_fmap in Hw.
  rewrite E, length_app, Hw in H.
  pose proof (skip_while_length label_sep rest). simpl in H. lia.
Qed.

Lemma normalize_abstract_twice_witness :
  normalize_abstract (Some (normalize_abstract (Some (py "Abstract: A widget.")))) =
    normalize_abstract (Some (py "Abstract: A widget.")).
Proof.
  apply (normalize_abstract_twice (Some (py "Abstract: A widget."))). reflexivity.
Defined.

(** C6: the result of [normalize_abstract] is the cleaned text without a
    prefix [label]; the prefix is empty, or it is the word Abstract in any
    case followed by colons, hyphens and whitespace, all of them, so that
    the result does not start with one.  When the cleaned text does not
    begin with the word, the result is the cleaned text; when it does, the
    result is what follows the word and its separators, and nothing later
    in the text is removed. *)
Theorem normalize_abstract_label (text : option str) :
  (∃ label,
     clean_text text = label ++ normalize_abstract text ∧
     (label = [] ∨
      ∃ w seps, label = w ++ seps ∧
        unicode_tolower <$> w = py "abstract" ∧
        forallb label_sep seps = true ∧
        match normalize_abstract text with
        | c :: _ => label_sep c = false
        | [] => True
        end)) ∧
  (match_icase (py "Abstract") (clean_text text) = None →
   normalize_abstract text = clean_text text) ∧
  (∀ rest, match_icase (py "Abstract") (clean_text text) = Some rest →
   normalize_abstract text = skip_while label_sep rest).
Proof.
  rewrite normalize_abstract_cases.
  destruct (match_icase _ (clean_text text)) as [rest|] eqn:E.
  - split_and!; [|done|by intros ? [= <-]].
    apply match_icase_split in E as (w & E & Hw).
    exists (w ++ span_while label_sep rest). split.
    + by rewrite <- app_assoc, span_skip.
    + right. exists w, (span_while label_sep rest). split_and!; [done|done|..].
      * apply span_while_all.
      * destruct (skip_while label_sep rest) eqn:Es; [done|].
        by apply skip_while_head in Es.
  - split_and!; [|done..]. exists []. split; [done|by left].
Qed.

Lemma normalize_abstract_label_witness :
  normalize_abstract (Some (py "  A  widget ")) = py "A widget" ∧
  normalize_abstract (Some (py "ABSTRACT:- A widget")) = py "A widget".
Proof.
  split.
  - destruct (normalize_abstract_label (Some (py "  A  widget "))) as (_ & H & _).
    rewrite H; reflexivity.
  - destruct (normalize_abstract_label (Some (py "ABSTRACT:- A widget"))) as (_ & _ & H).
    rewrite (H (py ":- A widget")); reflexivity.
Defined.

(** ** Scraping *)

Lemma scrape_fail net url w e :
  fetch_failure net url = Some e →
  scrape_google_patents net url w =
    (inl (RequestException e), after_fetch url w).
Proof.
  unfold fetch_failure. intros Hf.
  unfold scrape_google_patents, mbind, M_bind, requests_get.
  fold (request_for url). destruct (net (request_for url)) as [e'|r].
  - by injection Hf as ->.
  - unfold raise_for_status. destruct (_ && _)%Z; [|done]. by injection Hf as <-.
Qed.

Lemma scrape_answered net url w r :
  net (request_for url) = inr r →
  ((400 <=? status_code r) && (status_code r <? 600))%Z = false →
  scrape_google_patents net url w =
    (if existsb overflows (raw_claims (soup r)) then inl ValueError
     else inr (build_record url r),
     after_fetch url w).
Proof.
  intros Hn Hs. unfold scrape_google_patents, mbind, M_bind, requests_get.
  fold (request_for url). rewrite Hn. unfold raise_for_status. rewrite Hs.
  simpl. unfold lift. rewrite claims_loop_spec.
  by destruct (existsb overflows (raw_claims (soup r))).
Qed.

Lemma scrape_overflow net url w r :
  net (request_for url) = inr r →
  ((400 <=? status_code r) && (status_code r <? 600))%Z = false →
  existsb overflows (raw_claims (soup r)) = true →
  scrape_google_patents net url w = (inl ValueError, after_fetch url w).
Proof. intros Hn Hs Ho. by rewrite (scrape_answered _ _ _ _ Hn Hs), Ho. Qed.

Lemma fetch_ok_inv net url :
  fetch_failure net url = None →
  ∃ r, net (request_for url) = inr r ∧
       ((400 <=? status_code r) && (status_code r <? 600))%Z = false.
Proof.
  unfold fetch_failure. destruct (net (request_for url)) as [e|r]; [done|].
  destruct (_ && _)%Z eqn:E; [done|]. intros _. by exists r.
Qed.

Lemma scrape_returns net url w d w' :
  scrape_google_patents net url w = (inr d, w') →
  fetch_failure net url = None ∧
  ∃ r, net (request_for url) = inr r ∧
       existsb overflows (raw_claims (soup r)) = false ∧
       d = build_record url r ∧ w' = after_fetch url w.
Proof.
  destruct (fetch_failure net url) as [e|] eqn:Ef.
  - by rewrite (scrape_fail _ _ _ _ Ef).
  - destruct (fetch_ok_inv _ _ Ef) as (r & Hn & Hs).
    rewrite (scrape_answered _ _ _ _ Hn Hs).
    destruct (existsb overflows (raw_claims (soup r))) eqn:Ho; [done|].
    intros [= <- <-]. split; [done|]. by exists r.
Qed.

Lemma scrape_inv net url w d w' :
  scrape_google_patents net url w = (inr d, w') →
  ∃ r, net (request_for url) = inr r ∧ d = build_record url r.
Proof.
  intros (_ & r & Hn & _ & Hd & _)%scrape_returns. by exists r.
Qed.

Lemma scrape_request_exception net url w e w' :
  scrape_google_patents net url w = (inl (RequestException e), w') →
  fetch_failure net url = Some e.
Proof.
  destruct (fetch_failure net url) as [e'|] eqn:Ef.
  - rewrite (scrape_fail _ _ _ _ Ef). by intros [= ->].
  - destruct (fetch_ok_inv _ _ Ef) as (r & Hn & Hs).
    rewrite (scrape_answered _ _ _ _ Hn Hs).
    by destruct (existsb overflows (raw_claims (soup r))).
Qed.

Lemma main_fail net typed w e :
  fetch_failure net (strip typed) = Some e →
  main net typed w = (inl (RequestException e), after_abort typed w).
Proof.
  intros Hf. unfold main, mbind, M_bind. simpl.
  by rewrite (scrape_fail _ _ _ _ Hf).
Qed.

(** C7, counterexample: for a URL with two spaces in a row the record's
    [source_url] is that URL, which is not normalized. *)
Lemma source_url_not_normalized :
  source_url (build_record url_two_spaces (response_of empty_page)) =
    url_two_spaces ∧
  normalized (source_url (build_record url_two_spaces (response_of empty_page))) =
    false ∧
  scrape_google_patents (λ _, inr (response_of empty_page)) url_two_spaces
    empty_world =
    (inr (build_record url_two_spaces (response_of empty_page)),
     after_fetch url_two_spaces empty_world).
Proof. by vm_compute. Qed.

Lemma extract_title_clean p : is_clean (extract_title p) = true.
Proof.
  unfold extract_title. destruct (tag_content _); [apply clean_text_is_clean|].
  destruct (soup_title p); [apply clean_text_is_clean|done].
Qed.

Lemma extract_pub_num_clean p : is_clean (extract_pub_num p) = true.
Proof. unfold extract_pub_num. destruct (tag_content _); [apply clean_text_is_clean|done]. Qed.

Lemma extract_abstract_clean p : is_clean (extract_abstract p) = true.
Proof.
  unfold extract_abstract. destruct (itemprop_abstract p); [apply normalize_abstract_clean|].
  destruct (tag_content _); [apply normalize_abstract_clean|done].
Qed.

(** C7, amended: in every record [scrape_google_patents] returns, [source],
    [publication_number], [title], [abstract] and the text of every claim
    have no leading or trailing whitespace and no two whitespace
    characters in a row; [source_url] is the URL as it was given. *)
Theorem record_fields_normalized net url w d w' :
  scrape_google_patents net url w = (inr d, w') →
  normalized (source d) = true ∧
  source_url d = url ∧
  normalized (publication_number d) = true ∧
  normalized (title d) = true ∧
  normalized (abstract d) = true ∧
  Forall (λ c, normalized (text c) = true) (claims d).
Proof.
  intros (r & _ & ->)%scrape_inv. simpl. split_and!; [done|done|..].
  - apply is_clean_normalized, extract_pub_num_clean.
  - apply is_clean_normalized, extract_title_clean.
  - apply is_clean_normalized, extract_abstract_clean.
  - apply Forall_forall. intros x Hx. apply is_clean_normalized.
    by apply (parse_claims_text _ x (raw_claims_raw (soup r))).
Qed.

Lemma record_fields_normalized_witness :
  normalized (source (build_record url_two_spaces (response_of page_claim_zero))) = true ∧
  Forall (λ c, normalized (text c) = true)
    (claims (build_record url_two_spaces (response_of page_claim_zero))).
Proof.
  destruct (record_fields_normalized (λ _, inr (response_of page_claim_zero))
              url_two_spaces empty_world
              (build_record url_two_spaces (response_of page_claim_zero))
              (after_fetch url_two_spaces empty_world))
    as (H1 & _ & _ & _ & _ & H2); [reflexivity|]. by split.
Defined.

(** C8, counterexample: a response with status 304, which is not a
    success status, is not refused: the script ends normally and writes
    the file [patent_dump/patent.json]. *)
Lemma not_modified_is_scraped :
  success_status 304 = false ∧
  (main net_304 (py "https://patents.google.com/patent/US1A/en")
     empty_world).1 = inr () ∧
  files (main net_304 (py "https://patents.google.com/patent/US1A/en")
           empty_world).2 !! py "patent_dump/patent.json" =
    Some (build_record (py "https://patents.google.com/patent/US1A/en")
            {| status_code := 304; content := []; soup := empty_page |}) ∧
  ¬ (∀ net typed w r,
       net (request_for (strip typed)) = inr r →
       success_status (status_code r) = false →
       ∃ e w', main net typed w = (inl e, w') ∧ files w' = files w).
Proof.
  split_and!; [by vm_compute..|]. intros H.
  destruct (H net_304 (py "https://patents.google.com/patent/US1A/en")
              empty_world
              {| status_code := 304; content := []; soup := empty_page |})
    as (e & w' & Hm & _); [done..|].
  vm_compute in Hm. discriminate Hm.
Qed.

(** C8, amended: when the fetch raises, or is answered with a status from
    400 to 599, which are the statuses [raise_for_status] rejects,
    [scrape_google_patents] ends with that error after the one request and
    returns no record; the script ends with the same error, has sent that
    one request, has written no file, and has printed nothing after the
    prompt.  An exception of [requests] comes from nothing else. *)
Theorem fetch_failure_aborts net :
  (∀ url w e, fetch_failure net url = Some e →
     scrape_google_patents net url w =
       (inl (RequestException e), after_fetch url w)) ∧
  (∀ typed w e, fetch_failure net (strip typed) = Some e →
     ∃ w', main net typed w = (inl (RequestException e), w') ∧
           files w' = files w ∧
           dirs w' = dirs w ∪ {[out_dir]} ∧
           sent w' = sent w ++ [request_for (strip typed)] ∧
           stdout w' = stdout w ++ [Prompt (py "Google Patents URL: ")]) ∧
  (∀ url w e w',
     scrape_google_patents net url w = (inl (RequestException e), w') →
     fetch_failure net url = Some e).
Proof.
  split_and!.
  - intros. by apply scrape_fail.
  - intros typed w e Hf. eexists. by rewrite (main_fail _ _ _ _ Hf).
  - apply scrape_request_exception.
Qed.

Lemma fetch_failure_aborts_witness :
  (main net_404 (py " https://patents.google.com/patent/US1A/en ") empty_world).1
    = inl (RequestException (HTTPError 404)) ∧
  (scrape_google_patents net_timeout (py "https://patents.google.com/patent/US1A/en")
     empty_world).1 = inl (RequestException Timeout).
Proof.
  destruct (fetch_failure_aborts net_404) as (_ & H1 & _).
  destruct (fetch_failure_aborts net_timeout) as (H2 & _). split.
  - destruct (H1 (py " https://patents.google.com/patent/US1A/en ") empty_world
                 (HTTPError 404)) as (w' & -> & _); reflexivity.
  - rewrite (H2 _ empty_world Timeout); reflexivity.
Defined.

Lemma sub_runs_from_isolated cls repl b s :
  no_run cls s = true →
  (b = true → match s with c :: _ => cls c = false | [] => True end) →
  sub_runs_from cls repl b s = (λ c, if cls c then repl else c) <$> s.
Proof.
  revert b. induction s as [|c r IH]; intros b Hs Hb; [done|].
  rewrite fmap_cons. simpl. destruct (cls c) eqn:E.
  - destruct b; [by specialize (Hb eq_refl)|]. f_equal.
    destruct r as [|d r']; [done|]. simpl in Hs.
    apply andb_true_iff in Hs as [Hd Hs]. apply IH; [done|].
    intros _. rewrite E in Hd. simpl in Hd. by apply negb_true_iff in Hd.
  - f_equal. apply IH; [|done]. destruct r as [|d r']; [done|]. simpl in Hs.
    by apply andb_true_iff in Hs as [_ Hs].
Qed.

Lemma forallb_slug_char s :
  forallb (λ c, negb (negb (slug_char c))) s = forallb slug_char s.
Proof. induction s as [|c r IH]; [done|]. simpl. by rewrite negb_involutive, IH. Qed.

(** C9, counterexample: in [EP1234567 (A1)] the space and the parenthesis
    become one underscore, not one each. *)
Lemma slug_of_merges_runs :
  slug_of pub_with_parenthesis = py "EP1234567_A1_" ∧
  replace_each pub_with_parenthesis = py "EP1234567__A1_" ∧
  slug_of pub_with_parenthesis ≠ replace_each pub_with_parenthesis.
Proof. split_and!; [by vm_compute..|]. vm_compute. discriminate. Qed.

(** C9, amended: the name is [patent] for the empty publication number
    and the sanitized publication number otherwise; sanitizing keeps a
    string of letters, digits, underscores and hyphens as it is, replaces
    each maximal run of other characters by one underscore, replaces
    character by character when no two such characters are adjacent, and
    returns only letters, digits, underscores and hyphens. *)
Theorem slug_of_sanitized :
  slug_of [] = py "patent" ∧
  (∀ pub, pub ≠ [] → slug_of pub = sanitize pub) ∧
  (∀ s, forallb slug_char s = true → sanitize s = s) ∧
  (∀ u w v, w ≠ [] → forallb (λ c, negb (slug_char c)) w = true →
     match last u with Some c => slug_char c = true | None => True end →
     match v with c :: _ => slug_char c = true | [] => True end →
     sanitize (u ++ w ++ v) = sanitize u ++ underscore :: sanitize v) ∧
  (∀ s, no_run (λ c, negb (slug_char c)) s = true →
     sanitize s = replace_each s) ∧
  (∀ pub, forallb slug_char (slug_of pub) = true).
Proof.
  split_and!.
  - reflexivity.
  - by intros [|c pub].
  - intros s Hs. apply sub_runs_keep. by rewrite forallb_slug_char.
  - intros u w v Hne Hw Hu Hv. apply sub_runs_maximal; [done|done|..].
    + destruct (last u); [|done]. by rewrite Hu.
    + destruct v; [done|]. by rewrite Hv.
  - intros s Hs. unfold sanitize, sub_runs, replace_each.
    rewrite sub_runs_from_isolated by done. apply list_fmap_ext.
    intros _ c _. by destruct (slug_char c).
  - intros pub. unfold slug_of, sanitize, sub_runs.
    rewrite <- forallb_slug_char. by apply sub_runs_from_no_cls.
Qed.

Lemma slug_of_sanitized_witness :
  slug_of (py "US 2020/0123456 A1") = py "US_2020_0123456_A1" ∧
  sanitize (py "EP1234567" ++ py " (" ++ py "A1)") =
    py "EP1234567" ++ underscore :: py "A1_".
Proof.
  destruct slug_of_sanitized as (_ & Hne & Hkeep & Hrun & Heach & _). split.
  - rewrite Hne by discriminate. rewrite Heach by reflexivity. reflexivity.
  - rewrite Hrun; [|discriminate|reflexivity..].
    rewrite (Hkeep (py "EP1234567")) by reflexivity. reflexivity.
Defined.

Lemma clean_text_blank t : forallb isspace t = true → clean_text (Some t) = [].
Proof.
  rewrite clean_text_squeeze. induction t as [|c r IH]; [done|]. simpl.
  intros [Hc Hr]%andb_true_iff. rewrite squeeze_true_ws by done. auto.
Qed.

(** C10: when the page has an element with [itemprop] equal to
    [abstract], the abstract is the normalized text of that element,
    whatever the description [meta] tag holds; when that text is empty or
    only whitespace the abstract is the empty string. *)
Theorem abstract_node_wins (p : Page) (t : str) :
  itemprop_abstract p = Some t →
  extract_abstract p = normalize_abstract (Some t) ∧
  (∀ md, extract_abstract (with_description md p) = extract_abstract p) ∧
  (forallb isspace t = true → extract_abstract p = []) ∧
  (∀ url r, soup r = p → abstract (build_record url r) = normalize_abstract (Some t)).
Proof.
  intros Hp. assert (extract_abstract p = normalize_abstract (Some t)) as Hx.
  { unfold extract_abstract. by rewrite Hp. }
  split_and!; [done|..].
  - intros md. unfold extract_abstract. simpl. by rewrite Hp.
  - intros Ht. by rewrite Hx, normalize_abstract_eq, clean_text_blank.
  - intros url r <-. done.
Qed.

Lemma abstract_node_wins_witness :
  extract_abstract page_empty_abstract = [] ∧
  tag_content (meta_description page_empty_abstract) =
    Some (py "A widget is disclosed.").
Proof.
  split; [|reflexivity].
  destruct (abstract_node_wins page_empty_abstract []) as (_ & _ & H & _);
    [reflexivity|]. apply H. reflexivity.
Defined.

(** ** The examples of the script and of its description *)

Example clean_text_docstring :
  clean_text (Some (py "  A   method  for   scoring links  ")) =
    py "A method for scoring links".
Proof. reflexivity. Qed.

Example re_split_blob :
  re_split (py " 1. A widget. 2. The widget of claim 1.") =
    [[]; py " 1. A widget."; py " 2. The widget of claim 1."].
Proof. reflexivity. Qed.

Example split_parts_blob :
  split_parts (py "Claims  1. A widget. 2. The widget of claim 1.") =
    [py "1. A widget."; py "2. The widget of claim 1."].
Proof. reflexivity. Qed.

Example widget_record :
  build_record (py "https://patents.google.com/patent/US1234567A/en")
    (response_of widget_page) =
    {| source := py "google_patents";
       source_url := py "https://patents.google.com/patent/US1234567A/en";
       publication_number := py "US1234567A";
       title := py "A Method For Widgets";
       abstract := py "A widget is disclosed.";
       claims :=
         [{| claim_number := 1; text := py "A widget." |};
          {| claim_number := 2;
             text := py "The widget of claim 1, further comprising a gear." |}];
       raw_html_bytes := 0 |}.
Proof. by vm_compute. Qed.

Example widget_file :
  files (main (λ _, inr (response_of widget_page))
           (py " https://patents.google.com/patent/US1234567A/en ")
           empty_world).2
    !! py "patent_dump/US1234567A.json" =
    Some (build_record (py "https://patents.google.com/patent/US1234567A/en")
            (response_of widget_page)).
Proof. by vm_compute. Qed.

(** * Further properties *)

(** ** More on [clean_text] *)

Lemma squeeze_blank_iff s : squeeze true s = [] ↔ forallb isspace s = true.
Proof.
  induction s as [|c r IH]; [done|]. simpl. destruct (isspace c) eqn:E.
  - by rewrite squeeze_true_ws.
  - rewrite squeeze_word by done. done.
Qed.

(** X1: cleaning a cleaned text changes nothing. *)
Theorem clean_text_idempotent (s : option str) :
  clean_text (Some (clean_text s)) = clean_text s.
Proof. apply clean_text_fix, clean_text_is_clean. Qed.

(** X2: [clean_text] returns the empty string exactly when its input is
    [None], empty, or made of whitespace only. *)
Theorem clean_text_empty_iff (s : option str) :
  clean_text s = [] ↔ forallb isspace (or_empty s) = true.
Proof.
  destruct s as [s|]; [|done]. rewrite clean_text_squeeze. apply squeeze_blank_iff.
Qed.

Lemma words_head_nonempty c r : isspace c = false → words (c :: r) ≠ [].
Proof.
  intros E. simpl. rewrite E. destruct (no_lead_ws r); [|done]. by destruct (words r).
Qed.

Lemma words_app_ws a w b :
  isspace w = true → words (a ++ w :: b) = words a ++ words b.
Proof.
  intros Hw. induction a as [|c a IH]; simpl.
  - by rewrite Hw.
  - destruct (isspace c); [done|]. rewrite IH. destruct a as [|d a'].
    + simpl. by rewrite Hw.
    + simpl no_lead_ws. destruct (isspace d) eqn:Ed; simpl negb; cbv iota; [done|].
      pose proof (words_head_nonempty d a' Ed) as Hne.
      by destruct (words (d :: a')).
Qed.

Lemma words_squeeze s :
  words (squeeze true s) = words s ∧ words (squeeze false s) = words s.
Proof.
  induction s as [|c r [IH1 IH2]]; [done|]. destruct (isspace c) eqn:E.
  - rewrite squeeze_true_ws, squeeze_false_ws by done. simpl words at 2 4.
    rewrite E. split; [done|]. rewrite <- IH1.
    by destruct (squeeze true r).
  - rewrite !squeeze_word by done.
    assert (words (c :: squeeze false r) = words (c :: r)) as ->; [|done].
    simpl. rewrite E, IH2. destruct r as [|d r']; [done|].
    destruct (isspace d) eqn:Ed.
    + rewrite squeeze_false_ws by done. simpl no_lead_ws. rewrite Ed. simpl negb.
      rewrite squeeze_false_ws in IH2 by done.
      destruct (squeeze true r') eqn:Es; [by rewrite <- IH2|done].
    + rewrite squeeze_word by done. simpl. by rewrite Ed.
Qed.

Lemma words_clean_text s : words (clean_text (Some s)) = words s.
Proof. rewrite clean_text_squeeze. apply words_squeeze. Qed.

(** X3: around a whitespace character the text is cleaned piecewise: the
    result holds the words of the left part and then those of the right
    part, and it is what cleaning gives when both parts are cleaned first
    and joined by a space. *)
Theorem clean_text_pieces (a b : str) (w : ascii) :
  isspace w = true →
  clean_text (Some (a ++ w :: b)) = join_words (words a ++ words b) ∧
  clean_text (Some (a ++ w :: b)) =
    clean_text (Some (clean_text (Some a) ++ space :: clean_text (Some b))).
Proof.
  intros Hw. rewrite !clean_text_words. rewrite words_app_ws by done.
  split; [done|]. rewrite words_app_ws by done.
  by rewrite <- !clean_text_words, !words_clean_text.
Qed.

(** ** More on [normalize_abstract] *)

(** X4: cleaning the text before [normalize_abstract] does not change its
    result. *)
Theorem normalize_abstract_after_clean (s : option str) :
  normalize_abstract (Some (clean_text s)) = normalize_abstract s.
Proof. by rewrite !normalize_abstract_eq, clean_text_idem. Qed.

Lemma tolower_keeps_space c :
  isspace c = true → isspace (unicode_tolower c) = true.
Proof. destruct c as [[] [] [] [] [] [] [] []]; vm_compute; congruence. Qed.

Lemma same_lower_no_space (w word : str) :
  unicode_tolower <$> w = word →
  forallb (λ c, negb (isspace c)) word = true →
  forallb (λ c, negb (isspace c)) w = true.
Proof.
  revert word. induction w as [|c w IH]; intros word; [done|].
  rewrite fmap_cons. intros <-. simpl. intros [Hc Hw]%andb_true_iff.
  rewrite (IH _ eq_refl Hw), andb_true_r. destruct (isspace c) eqn:E; [|done].
  by rewrite (tolower_keeps_space c E) in Hc.
Qed.

Lemma match_icase_app (word w x : str) :
  unicode_tolower <$> w = unicode_tolower <$> word →
  match_icase word (w ++ x) = Some x.
Proof.
  revert w. induction word as [|l word IH]; intros [|c w]; try done.
  rewrite !fmap_cons. intros [= Hc Hw]. simpl. unfold icase_eq.
  rewrite Hc, Ascii.eqb_refl. by apply IH.
Qed.

Lemma squeeze_word_prefix b (w x : str) :
  forallb (λ c, negb (isspace c)) w = true → w ≠ [] →
  squeeze b (w ++ x) = w ++ squeeze false x.
Proof.
  revert b. induction w as [|c w IH]; intros b Hw Hne; [done|]. simpl in Hw.
  apply andb_true_iff in Hw as [Hc%negb_true_iff Hw]. simpl.
  rewrite squeeze_word by done. destruct w as [|d w']; [done|].
  by rewrite (IH false).
Qed.

Lemma sep_not_space c : label_sep c = false → isspace c = false.
Proof. unfold label_sep. destruct (isspace c); [by rewrite orb_true_r|done]. Qed.

Lemma squeeze_seps b (u : str) c0 v :
  forallb label_sep u = true → label_sep c0 = false →
  ∃ u', squeeze b (u ++ c0 :: v) = u' ++ c0 :: squeeze false v ∧
        forallb label_sep u' = true.
Proof.
  intros Hu Hc. revert b. induction u as [|x u IH]; intros b.
  - exists []. simpl. by rewrite squeeze_word by by apply sep_not_space.
  - simpl in Hu. apply andb_true_iff in Hu as [Hx Hu]. simpl.
    destruct (isspace x) eqn:Ex.
    + destruct (IH Hu true) as (u' & Hs & Hu'). destruct b.
      * rewrite squeeze_true_ws by done. by exists u'.
      * rewrite squeeze_false_ws, Hs by done. exists (space :: u').
        split; [by destruct u'|done].
    + rewrite squeeze_word by done. destruct (IH Hu false) as (u' & -> & Hu').
      exists (x :: u'). split; [done|]. simpl. by rewrite Hx.
Qed.

(** X5: for the word Abstract in any mix of cases, followed by any run of
    colons, hyphens and whitespace and then by a body that does not start
    with one of those, [normalize_abstract] returns the cleaned body. *)
Theorem normalize_abstract_strips (w seps body : str) :
  unicode_tolower <$> w = py "abstract" →
  forallb label_sep seps = true →
  match body with c :: _ => label_sep c = false | [] => True end →
  normalize_abstract (Some (w ++ seps ++ body)) = clean_text (Some body).
Proof.
  intros Hw Hs Hb.
  assert (forallb (λ c, negb (isspace c)) w = true) as Hns.
  { by apply (same_lower_no_space w _ Hw). }
  assert (w ≠ []) as Hne by (by destruct w).
  rewrite normalize_abstract_cases, !clean_text_squeeze.
  rewrite squeeze_word_prefix by done.
  rewrite match_icase_app by done.
  destruct body as [|c0 v].
  - rewrite app_nil_r. apply skip_while_all.
    clear -Hs. assert (∀ b, forallb label_sep (squeeze b seps) = true) as H; [|apply H].
    induction seps as [|x u IH]; intros b; [done|]. simpl in Hs.
    apply andb_true_iff in Hs as [Hx Hu]. destruct (isspace x) eqn:Ex.
    + destruct b.
      * rewrite squeeze_true_ws by done. by apply IH.
      * rewrite squeeze_false_ws by done. specialize (IH Hu true).
        by destruct (squeeze true u).
    + rewrite squeeze_word by done. simpl. rewrite Hx. by apply IH.
  - destruct (squeeze_seps false seps c0 v Hs Hb) as (u' & -> & Hu').
    rewrite skip_while_app, Hu'. simpl. rewrite Hb.
    by rewrite squeeze_word by by apply sep_not_space.
Qed.

(** ** The second tier *)

Lemma re_split_from_concat b cur s :
  concat (re_split_from b cur s) = rev cur ++ s ∧ re_split_from b cur s ≠ [].
Proof.
  revert b cur. induction s as [|c r IH]; intros b cur.
  - simpl. split; [reflexivity|discriminate].
  - change (re_split_from b cur (c :: r)) with
      (if boundary b (c :: r) then rev cur :: re_split_from false [c] r
       else re_split_from false (c :: cur) r).
    destruct (boundary b (c :: r)).
    + split; [|done]. simpl. by rewrite (proj1 (IH false [c])).
    + destruct (IH false (c :: cur)) as [-> H]. simpl. by rewrite <- app_assoc.
Qed.

(** X6: the split of the second tier loses nothing: the pieces, put
    together again, are the text, and there is always at least one
    piece. *)
Theorem re_split_concat (s : str) :
  concat (re_split s) = s ∧ re_split s ≠ [].
Proof. apply (re_split_from_concat true [] s). Qed.

Lemma fallback_loop_cons node rest :
  fallback_loop (node :: rest) =
    match split_parts node with
    | [] => fallback_loop rest
    | piece :: more => piece :: more
    end.
Proof. reflexivity. Qed.

(** X7: the loop over the claims containers returns the pieces of the
    first container that has any and does not look at later ones; it
    returns nothing exactly when no container has a piece. *)
Theorem fallback_loop_first (alt : list str) :
  (fallback_loop alt = [] ↔ Forall (λ node, split_parts node = []) alt) ∧
  (∀ before node after, alt = before ++ node :: after →
     Forall (λ n, split_parts n = []) before → split_parts node ≠ [] →
     fallback_loop alt = split_parts node).
Proof.
  split.
  - induction alt as [|node rest IH]; [done|].
    rewrite fallback_loop_cons, Forall_cons.
    destruct (split_parts node) eqn:E.
    + rewrite IH. split; [by split | by intros [_ ?]].
    + split; [done | by intros [? _]].
  - intros before node after -> Hb Hn.
    induction Hb as [|n before Hn' _ IH]; simpl app; rewrite fallback_loop_cons.
    + by destruct (split_parts node).
    + by rewrite Hn'.
Qed.

(** ** More on parsing *)

Lemma int_leading_zero (ds : str) : int ("0"%char :: ds) = int ds.
Proof. reflexivity. Qed.

Lemma int_snoc (ds : str) (d : ascii) :
  int (ds ++ [d]) = 10 * int ds + digit_value d.
Proof. unfold int. by rewrite foldl_app. Qed.









(** ** The file name *)

Lemma sanitize_only_slug_chars s : forallb slug_char (sanitize s) = true.
Proof.
  unfold sanitize, sub_runs. rewrite <- forallb_slug_char.
  by apply sub_runs_from_no_cls.
Qed.

Lemma sanitize_nonempty s : s ≠ [] → sanitize s ≠ [].
Proof.
  destruct s as [|c r]; [done|]. intros _. unfold sanitize, sub_runs. simpl.
  by destruct (negb (slug_char c)).
Qed.

(** X11: the file name is never empty and holds only letters, digits,
    underscores and hyphens; in particular no path separator, no dot and
    no whitespace, so the file lands in the output directory. *)
Theorem slug_of_safe (pub : str) :
  slug_of pub ≠ [] ∧
  ∀ c, c ∈ slug_of pub →
    slug_char c = true ∧ c ≠ "/"%char ∧ c ≠ "\"%char ∧ c ≠ "."%char ∧
    isspace c = false.
Proof.
  split.
  - unfold slug_of. apply sanitize_nonempty. by destruct pub.
  - intros c Hc. pose proof (sanitize_only_slug_chars
      match pub with [] => py "patent" | _ :: _ => pub end) as H.
    fold (slug_of pub) in H. rewrite forallb_forall in H.
    apply list_elem_of_In, H in Hc. split; [done|].
    split_and!; try (intros ->; discriminate Hc).
    destruct (isspace c) eqn:E; [|done].
    destruct c as [[] [] [] [] [] [] [] []]; vm_compute in E, Hc; congruence.
Qed.

(** X12: sanitizing a sanitized name changes nothing. *)
Theorem sanitize_idempotent (s : str) : sanitize (sanitize s) = sanitize s.
Proof.
  unfold sanitize at 1. apply sub_runs_keep. rewrite forallb_slug_char.
  apply sanitize_only_slug_chars.
Qed.

(** ** The whole run *)

Lemma main_answered net typed w r :
  net (request_for (strip typed)) = inr r →
  ((400 <=? status_code r) && (status_code r <? 600))%Z = false →
  main net typed w =
    if existsb overflows (raw_claims (soup r))
    then (inl ValueError, after_abort typed w)
    else (inr (), after_main typed r w).
Proof.
  intros Hn Hs. unfold main, mbind, M_bind. simpl.
  rewrite (scrape_answered _ _ _ _ Hn Hs).
  destruct (existsb overflows (raw_claims (soup r))); [done|].
  unfold after_main, print. simpl. by rewrite <- !app_assoc.
Qed.

Lemma overflows_match ds rest :
  ds ≠ [] → forallb isdecimal ds = true →
  overflows (ds ++ dot :: rest) = int_raises ds.
Proof.
  intros Hne Hd. unfold overflows.
  assert (match_claim (ds ++ dot :: rest) =
          Some (ds, span_while not_newline (skip_while isspace rest))) as ->.
  { apply match_claim_spec. by exists rest. }
  done.
Qed.

Lemma status_accepted (code : Z) :
  ((400 <=? code) && (code <? 600))%Z = false ↔ (code < 400 ∨ 600 ≤ code)%Z.
Proof. rewrite andb_false_iff, Z.leb_gt, Z.ltb_ge. done. Qed.


(** X14: running the script a second time on the same line with the same
    answer from the network leaves the files as the first run left
    them. *)
Theorem main_twice_same_files net typed w :
  files (main net typed (main net typed w).2).2 = files (main net typed w).2.
Proof.
  destruct (fetch_failure net (strip typed)) as [e|] eqn:Ef.
  - by rewrite !(main_fail _ _ _ _ Ef).
  - destruct (fetch_ok_inv _ _ Ef) as (r & Hn & Hs).
    rewrite !(main_answered _ _ _ _ Hn Hs).
    destruct (existsb overflows (raw_claims (soup r))); [done|].
    simpl. apply insert_insert_eq.
Qed.


(** X19: when the fetch is answered with a status below 400 or from 600 on
    and some raw claim starts with more than 4300 digits and a dot,
    [scrape_google_patents] ends with [ValueError] and returns no record;
    the script ends with the same error and has written no file. *)
Theorem long_number_aborts net typed w r c ds rest :
  net (request_for (strip typed)) = inr r →
  ((status_code r < 400) ∨ (600 ≤ status_code r))%Z →
  c ∈ raw_claims (soup r) →
  c = ds ++ dot :: rest → ds ≠ [] → forallb isdecimal ds = true →
  (int_max_str_digits < length ds)%nat →
  scrape_google_patents net (strip typed) w =
    (inl ValueError, after_fetch (strip typed) w) ∧
  ∃ w', main net typed w = (inl ValueError, w') ∧
        files w' = files w ∧
        sent w' = sent w ++ [request_for (strip typed)].
Proof.
  intros Hn Hs%status_accepted Hc -> Hne Hd Hlen.
  assert (existsb overflows (raw_claims (soup r)) = true) as Ho.
  { apply existsb_exists. exists (ds ++ dot :: rest).
    split; [by apply list_elem_of_In|].
    rewrite overflows_match by done. by apply Nat.ltb_lt. }
  split.
  - by apply (scrape_overflow _ _ _ r).
  - exists (after_abort typed w). by rewrite (main_answered _ _ _ _ Hn Hs), Ho.
Qed.

(** ** Locating the fields *)

(** X16: a title [meta] tag with a non-empty [content] decides the title,
    even when the content is only whitespace (the title is then empty and
    the title element is not used); without such a content the title is
    the cleaned text of the title element, or empty when there is
    none. *)
Theorem title_meta_first (p : Page) :
  (∀ c t, meta_DC_title p = Some (Some (c :: t)) →
     extract_title p = clean_text (Some (c :: t)) ∧
     (forallb isspace (c :: t) = true → extract_title p = [])) ∧
  (tag_content (meta_DC_title p) = None →
     extract_title p = clean_text (soup_title p)).
Proof.
  split.
  - intros c t Hm. assert (extract_title p = clean_text (Some (c :: t))) as H.
    { unfold extract_title. by rewrite Hm. }
    split; [done|]. intros Hb. rewrite H. by apply clean_text_blank.
  - intros Hm. unfold extract_title. rewrite Hm. by destruct (soup_title p).
Qed.

Lemma filter_none {A} (P : A → Prop) `{∀ x, Decision (P x)} (l : list A) :
  Forall (λ x, ¬ P x) l → filter P l = [].
Proof.
  induction 1 as [|x l Hx _ IH]; [done|]. by rewrite filter_cons_False.
Qed.

(** X17: when the first claim selector finds elements, only those are
    filtered; when none of them looks numbered, the raw claims come from
    the second tier, and elements that only the other selectors find are
    not used. *)
Theorem first_selector_only (p : Page) :
  select_itemprop_claims_claim p ≠ [] →
  primary_claims p =
    filter (λ txt, looks_numbered txt = true)
      ((λ node, clean_text (Some node)) <$> select_itemprop_claims_claim p) ∧
  (Forall (λ node, looks_numbered (clean_text (Some node)) = false)
     (select_itemprop_claims_claim p) →
   raw_claims p = fallback_claims p).
Proof.
  intros Hne.
  assert (claim_nodes p = select_itemprop_claims_claim p) as Hn.
  { unfold claim_nodes. by destruct (select_itemprop_claims_claim p). }
  unfold raw_claims, primary_claims. rewrite Hn. split; [done|].
  intros Hf. rewrite filter_none; [done|].
  apply Forall_fmap. eapply Forall_impl; [exact Hf|]. simpl.
  intros node ->. done.
Qed.

(** ** Recovering claims from a block of text *)

Lemma after_digits_skip r :
  match skip_while isdecimal r with
  | d :: w :: _ => Ascii.eqb d dot && isspace w
  | _ => false
  end = after_digits r.
Proof.
  induction r as [|d r IH]; [done|]. simpl. destruct (isdecimal d); [done|].
  destruct r; [by rewrite andb_false_r|done].
Qed.

Lemma match_num_dot_ws_scan s :
  match_num_dot_ws s =
    match s with
    | c :: _ => isdecimal c && after_digits s
    | [] => false
    end.
Proof.
  unfold match_num_dot_ws. destruct s as [|c r]; [done|]. simpl.
  destruct (isdecimal c); [|done]. apply after_digits_skip.
Qed.

Lemma after_digits_space v X :
  after_digits (v ++ space :: X) = after_digits (v ++ [space]).
Proof.
  induction v as [|c v IH]; [reflexivity|]. simpl. destruct (isdecimal c); [done|].
  by destruct v.
Qed.

Lemma after_digits_app v X :
  after_digits v = true → after_digits (v ++ X) = true.
Proof.
  induction v as [|c v IH]; [done|]. simpl. destruct (isdecimal c); [done|].
  destruct v; [by rewrite andb_false_r|done].
Qed.

Lemma match_num_dot_ws_app v X :
  match_num_dot_ws v = true → match_num_dot_ws (v ++ X) = true.
Proof.
  rewrite !match_num_dot_ws_scan. destruct v as [|c v]; [done|].
  rewrite <- app_comm_cons. intros [-> H]%andb_true_iff.
  exact (after_digits_app (c :: v) X H).
Qed.

Lemma match_num_dot_ws_space v X :
  match_num_dot_ws (v ++ space :: X) = match_num_dot_ws (v ++ [space]).
Proof.
  rewrite !match_num_dot_ws_scan. destruct v as [|c v]; [reflexivity|].
  rewrite <- !app_comm_cons. f_equal. exact (after_digits_space (c :: v) X).
Qed.

Lemma boundary_false_cons b c r :
  boundary b (c :: r) =
    (isspace c && match_num_dot_ws r) || (b && match_num_dot_ws (c :: r)).
Proof. reflexivity. Qed.

Lemma quiet_any_rest c X :
  quiet c [space] = true →
  match X with [] => True | x :: _ => x = space end →
  quiet c X = true.
Proof.
  intros Hq HX. induction c as [|x c IH]; [done|].
  change (quiet (x :: c) [space]) with
    (negb (boundary false (x :: c ++ [space])) && quiet c [space]) in Hq.
  change (quiet (x :: c) X) with
    (negb (boundary false (x :: c ++ X)) && quiet c X).
  apply andb_true_iff in Hq as [Hb Hq]. rewrite (IH Hq), andb_true_r.
  rewrite boundary_false_cons in *. rewrite !orb_false_r in *.
  destruct (isspace x); [|done]. simpl in *.
  destruct X as [|y X'].
  - rewrite app_nil_r. destruct (match_num_dot_ws c) eqn:E; [|done].
    by rewrite (match_num_dot_ws_app c [space] E) in Hb.
  - subst y. by rewrite match_num_dot_ws_space.
Qed.

Lemma re_split_from_quiet cur u rest :
  quiet u rest = true →
  re_split_from false cur (u ++ rest) = re_split_from false (rev u ++ cur) rest.
Proof.
  revert cur. induction u as [|c u IH]; intros cur Hq; [done|].
  change (quiet (c :: u) rest) with
    (negb (boundary false (c :: u ++ rest)) && quiet u rest) in Hq.
  apply andb_true_iff in Hq as [Hb%negb_true_iff Hq].
  change (re_split_from false cur ((c :: u) ++ rest)) with
    (if boundary false (c :: u ++ rest)
     then rev cur :: re_split_from false [c] (u ++ rest)
     else re_split_from false (c :: cur) (u ++ rest)).
  rewrite Hb, (IH _ Hq). simpl. by rewrite <- app_assoc.
Qed.

Lemma spaced_block_head cs :
  match spaced_block cs with [] => True | x :: _ => x = space end.
Proof. by destruct cs. Qed.

Lemma re_split_from_block b p cs :
  Forall (λ c, splittable c = true) cs →
  re_split_from b (rev p) (spaced_block cs) = p :: ((λ c, space :: c) <$> cs).
Proof.
  intros Hcs. revert b p. induction Hcs as [|c cs Hc _ IH]; intros b p.
  - simpl. by rewrite rev_involutive.
  - apply andb_true_iff in Hc as [[_ Hm]%andb_true_iff Hq].
    change (spaced_block (c :: cs)) with (space :: c ++ spaced_block cs).
    change (re_split_from b (rev p) (space :: c ++ spaced_block cs)) with
      (if boundary b (space :: c ++ spaced_block cs)
       then rev (rev p) :: re_split_from false [space] (c ++ spaced_block cs)
       else re_split_from false (space :: rev p) (c ++ spaced_block cs)).
    rewrite boundary_false_cons, (match_num_dot_ws_app c _ Hm). simpl orb.
    cbv iota. rewrite rev_involutive. f_equal.
    rewrite re_split_from_quiet
      by (apply quiet_any_rest; [exact Hq | apply spaced_block_head]).
    apply (IH false (space :: c)).
Qed.

Lemma join_words_block cs :
  cs ≠ [] → space :: join_words cs = spaced_block cs.
Proof.
  induction cs as [|c cs IH]; [done|]. intros _. destruct cs as [|d cs'].
  - unfold spaced_block. simpl. by rewrite app_nil_r.
  - change (join_words (c :: d :: cs')) with
      (c ++ space :: join_words (d :: cs')).
    rewrite IH by done. done.
Qed.

Lemma clean_after_space c : is_clean c = true → clean_text (Some (space :: c)) = c.
Proof.
  intros Hc. rewrite clean_text_squeeze, squeeze_true_ws by done.
  rewrite <- clean_text_squeeze. by apply clean_text_fix.
Qed.

Lemma keep_block cs :
  Forall (λ c, splittable c = true) cs →
  (λ p, clean_text (Some p)) <$>
    filter (λ p, match_num_dot_ws (clean_text (Some p)) = true)
      ((λ c, space :: c) <$> cs) = cs.
Proof.
  induction 1 as [|c cs Hc _ IH]; [done|].
  apply andb_true_iff in Hc as [[Hcl Hm]%andb_true_iff _].
  rewrite fmap_cons, filter_cons_True by by rewrite clean_after_space.
  by rewrite fmap_cons, IH, clean_after_space.
Qed.

(** X18: when the cleaned text of a claims container is a sequence of
    numbered claims with one space between them, and inside no claim a
    whitespace is followed by digits, a dot and whitespace or the end of
    the claim, the second tier returns exactly those claims. *)
Theorem split_parts_recovers (node : str) (cs : list str) :
  clean_text (Some node) = join_words cs →
  Forall (λ c, splittable c = true) cs →
  split_parts node = cs.
Proof.
  intros Hn Hcs. unfold split_parts. rewrite Hn. destruct cs as [|c cs'].
  - reflexivity.
  - rewrite join_words_block by done. unfold re_split.
    pose proof (re_split_from_block true [] _ Hcs) as Hs.
    change (rev []) with (@nil ascii) in Hs. rewrite Hs.
    rewrite filter_cons_False by (by vm_compute).
    by apply keep_block.
Qed.

Lemma clean_text_empty_iff_witness : clean_text (Some (py "   ")) = [].
Proof. apply (clean_text_empty_iff (Some (py "   "))). reflexivity. Defined.

Lemma clean_text_pieces_witness :
  clean_text (Some (py " A  widget" ++ newline :: py "is  disclosed. ")) =
    clean_text (Some (clean_text (Some (py " A  widget")) ++
                      space :: clean_text (Some (py "is  disclosed. ")))).
Proof.
  apply (clean_text_pieces (py " A  widget") (py "is  disclosed. ") newline).
  reflexivity.
Defined.

Lemma normalize_abstract_strips_witness :
  normalize_abstract (Some (py "ABSTRACT" ++ py ": - " ++ py "A  widget.")) =
    py "A widget.".
Proof.
  rewrite (normalize_abstract_strips (py "ABSTRACT") (py ": - ") (py "A  widget."));
    reflexivity.
Defined.

Lemma fallback_loop_first_witness :
  fallback_loop [py "Claims"; py "1. A widget. 2. A gear."; py "3. A cog."] =
    split_parts (py "1. A widget. 2. A gear.").
Proof.
  destruct (fallback_loop_first
              [py "Claims"; py "1. A widget. 2. A gear."; py "3. A cog."])
    as [_ H].
  apply (H [py "Claims"] (py "1. A widget. 2. A gear.") [py "3. A cog."]).
  - reflexivity.
  - repeat constructor.
  - discriminate.
Defined.



Lemma slug_of_safe_witness :
  underscore ∈ slug_of pub_with_parenthesis ∧ underscore ≠ "/"%char.
Proof.
  destruct (slug_of_safe pub_with_parenthesis) as [_ H].
  assert (underscore ∈ slug_of pub_with_parenthesis) as Hin.
  { apply list_elem_of_In. vm_compute. do 9 right. by left. }
  split; [exact Hin|]. by destruct (H underscore Hin) as (_ & ? & _).
Defined.



Lemma long_number_aborts_witness :
  files (main net_long_number typed_widget empty_world).2 = ∅.
Proof.
  destruct (long_number_aborts net_long_number typed_widget empty_world
              (match net_long_number (request_for (strip typed_widget)) with
               | inr r => r
               | inl _ => response_of empty_page
               end)
              long_number_claim
              (replicate (S int_max_str_digits) "1"%char) (py " Foo"))
    as (_ & w' & -> & Hf & _).
  - reflexivity.
  - left. reflexivity.
  - vm_compute. by left.
  - reflexivity.
  - discriminate.
  - by vm_compute.
  - vm_compute. lia.
  - exact Hf.
Defined.

Lemma title_meta_first_witness :
  extract_title page_blank_title = [] ∧
  extract_title empty_page = [].
Proof.
  destruct (title_meta_first page_blank_title) as [H1 _].
  destruct (title_meta_first empty_page) as [_ H2]. split.
  - destruct (H1 space [space]) as [_ H]; [reflexivity|]. apply H. reflexivity.
  - rewrite H2; reflexivity.
Defined.

Lemma first_selector_only_witness :
  raw_claims page_heading_first = [py "1. A widget."; py "2. A gear."] ∧
  raw_claims page_heading_first = fallback_claims page_heading_first.
Proof.
  destruct (first_selector_only page_heading_first) as [_ H]; [discriminate|].
  split; [reflexivity|]. apply H. repeat constructor.
Defined.

Lemma split_parts_recovers_witness :
  split_parts
    (py "  1. A widget.   2. The widget of claim 1,  with a gear. ") =
    two_claims.
Proof.
  apply split_parts_recovers; [reflexivity|]. repeat constructor.
Defined.
